(** * speech_output: the text normalizer and the speech output

    A shallow embedding of [preprocess_abbreviations], [speak_text] and
    [self_check] from [speaking_llm/speech_output.py] together with the
    part of the Python runtime they rely on (the [re] matcher restricted
    to the operators the patterns of the function use, [int], [str],
    true division and the [.1f] float format).  The speech services that
    [speak_text] calls are parameters. *)

From Stdlib Require Import ZArith NArith List Bool Lia String Ascii.
From Stdlib Require DecimalFacts DecimalPos DecimalN.
Import ListNotations.

Local Open Scope N_scope.

(** ** Text *)

(** A Python [str] is a sequence of Unicode code points. *)
Abbreviation char := N (only parsing).
Abbreviation text := (list N) (only parsing).

Definition ch (a : ascii) : char := N_of_ascii a.

(** An ASCII literal of the source as a [text]. *)
Definition txt (s : string) : text := map ch (list_ascii_of_string s).

Definition in_range (lo hi c : char) : bool := (lo <=? c) && (c <=? hi).

Definition ascii_digit (c : char) : bool := in_range 48 57 c.
Definition ascii_lower (c : char) : bool := in_range 97 122 c.
Definition ascii_upper (c : char) : bool := in_range 65 90 c.
Definition underscore : char := 95.

(** ** Exceptions *)

Inductive exn := ValueError | OverflowError | ZeroDivisionError | IndexError.

Inductive result (A : Type) :=
| Ok (a : A)
| Raise (e : exn).
Arguments Ok {A} a.
Arguments Raise {A} e.

Definition bind {A B} (r : result A) (k : A -> result B) : result B :=
  match r with
  | Ok a => k a
  | Raise e => Raise e
  end.

Notation "x <- r ;; k" := (bind r (fun x => k))
  (at level 61, r at next level, right associativity).

(** ** The interpreter's tables

    The Unicode database and the limit on [int]/[str] conversions belong
    to the interpreter, not to the repository; they are parameters of the
    embedding.  The ASCII part of every classification is fixed below. *)

Record Interp := {
  (** [str.isalnum] on the code points from 128 on, decimal digits aside *)
  uni_alnum : char -> bool;
  (** the value of a decimal digit (category Nd) from 128 on *)
  uni_decimal : char -> option Z;
  uni_decimal_range :
    forall c d, uni_decimal c = Some d -> (0 <= d <= 9)%Z;
  (** [sys.get_int_max_str_digits()]; 0 switches the limit off *)
  int_max_str_digits : N
}.

(** An interpreter that knows no alphanumeric character outside ASCII,
    with the default conversion limit of CPython 3.11. *)
Definition ascii_interp : Interp :=
  {| uni_alnum := fun _ => false;
     uni_decimal := fun _ => None;
     uni_decimal_range := ltac:(discriminate);
     int_max_str_digits := 4300 |}.

Section Runtime.

Variable I : Interp.

(** The value of a character as a decimal digit ([Py_UNICODE_TODECIMAL]). *)
Definition digit_value (c : char) : option Z :=
  if c <? 128 then
    if ascii_digit c then Some (Z.of_N c - 48)%Z else None
  else uni_decimal I c.

(** [\d] of a [str] pattern. *)
Definition is_digit (c : char) : bool :=
  match digit_value c with Some _ => true | None => false end.

(** [\w] of a [str] pattern: alphanumeric or underscore. *)
Definition is_word (c : char) : bool :=
  if c <? 128 then
    ascii_digit c || ascii_lower c || ascii_upper c || (c =? underscore)
  else is_digit c || uni_alnum I c.

(** [\s] of a [str] pattern ([str.isspace]). *)
Definition is_space (c : char) : bool :=
  in_range 9 13 c || in_range 28 32 c || (c =? 133) || (c =? 160)
  || (c =? 5760) || in_range 8192 8202 c || (c =? 8232) || (c =? 8233)
  || (c =? 8239) || (c =? 8287) || (c =? 12288).

(** [[0-9a-f]] *)
Definition hex_lower (c : char) : bool := ascii_digit c || in_range 97 102 c.

(** [[0-9a-f]] under [re.IGNORECASE] *)
Definition hex_nocase (c : char) : bool := hex_lower c || in_range 65 70 c.

(** [[a-z0-9]] *)
Definition lower_alnum (c : char) : bool := ascii_lower c || ascii_digit c.

(** [[A-Za-z0-9+/]] *)
Definition base64_char (c : char) : bool :=
  ascii_upper c || ascii_lower c || ascii_digit c || (c =? 43) || (c =? 47).

(** A literal character under [re.IGNORECASE]: both cases of an ASCII
    letter, and for [s] also the long s (U+017F), which the matcher
    treats as a case variant of it. *)
Definition nocase (p c : char) : bool :=
  (c =? p)
  || (ascii_lower p && (c =? p - 32))
  || (ascii_upper p && (c =? p + 32))
  || ((p =? 115) && (c =? 383)).

(** ** The matcher

    The patterns of the function are sequences of word boundaries and of
    greedy repetitions of one character class; a literal character is a
    class repeated exactly once. *)

Inductive item :=
| Bound
| Rep (p : char -> bool) (lo : nat) (hi : option nat).

Definition regex := list item.

Definition Chr (p : char -> bool) : item := Rep p 1%nat (Some 1%nat).
Definition lit (w : text) : regex := map (fun c => Chr (N.eqb c)) w.
Definition lit_nocase (w : text) : regex := map (fun c => Chr (nocase c)) w.

Definition opt_word (c : option char) : bool :=
  match c with Some c => is_word c | None => false end.

(** [\b] between the character before the position and the text at it. *)
Definition boundary (prev : option char) (s : text) : bool :=
  xorb (opt_word prev) (opt_word (hd_error s)).

Definition may_take (hi : option nat) : bool :=
  match hi with Some O => false | _ => true end.

(** A greedy repetition followed by the continuation [k]: one more
    character is tried first; when the rest fails with it the repetition
    stops here, if it has its minimum.  The result is the length of the
    match. *)
Fixpoint rep (p : char -> bool) (lo : nat) (hi : option nat)
    (k : option char -> text -> option nat)
    (prev : option char) (s : text) {struct s} : option nat :=
  let stop := match lo with O => k prev s | S _ => None end in
  match s with
  | c :: s' =>
      if p c && may_take hi then
        match rep p (pred lo) (option_map pred hi) k (Some c) s' with
        | Some n => Some (S n)
        | None => stop
        end
      else stop
  | [] => stop
  end.

Fixpoint matches (r : regex) : option char -> text -> option nat :=
  match r with
  | [] => fun _ _ => Some O
  | Bound :: r' =>
      fun prev s => if boundary prev s then matches r' prev s else None
  | Rep p lo hi :: r' => rep p lo hi (matches r')
  end.

(** ** [re.sub]

    The scan of [re.sub]: the leftmost match at each position, then on
    from its end.  Every pattern of the function has a mandatory
    character, so no match is empty and the rule for empty matches is
    not needed. *)

Inductive piece :=
| Keep (c : char)
| Hit (m : text).

Fixpoint scan_go (r : regex) (skip : nat) (prev : option char) (s : text)
    : list piece :=
  match s with
  | [] => []
  | c :: s' =>
      match skip with
      | S k => scan_go r k (Some c) s'
      | O =>
          match matches r prev s with
          | Some (S n) => Hit (firstn (S n) s) :: scan_go r n (Some c) s'
          | _ => Keep c :: scan_go r O (Some c) s'
          end
      end
  end.

Definition scan (r : regex) (s : text) : list piece := scan_go r O None s.

(** [re.sub(pattern, repl, text)] with a literal replacement. *)
Definition re_sub (r : regex) (repl : text) (s : text) : text :=
  flat_map (fun p => match p with Keep c => [c] | Hit _ => repl end)
           (scan r s).

(** [re.sub(pattern, f, text)] with a function of the matched text; the
    function is called match by match from the left and its first
    exception ends the call. *)
Fixpoint subst_pieces (f : text -> result text) (ps : list piece)
    : result text :=
  match ps with
  | [] => Ok []
  | Keep c :: ps' => rest <- subst_pieces f ps' ;; Ok (c :: rest)
  | Hit m :: ps' =>
      out <- f m ;; rest <- subst_pieces f ps' ;; Ok (out ++ rest)
  end.

Definition re_sub_fn (r : regex) (f : text -> result text) (s : text)
    : result text :=
  subst_pieces f (scan r s).

(** [str.replace(old, new)] for a non-empty [old]. *)
Fixpoint starts_with (w s : text) : bool :=
  match w, s with
  | [], _ => true
  | a :: w', c :: s' => (a =? c) && starts_with w' s'
  | _ :: _, [] => false
  end.

Fixpoint replace_go (old new : text) (skip : nat) (s : text) : text :=
  match s with
  | [] => []
  | c :: s' =>
      match skip with
      | S k => replace_go old new k s'
      | O =>
          if starts_with old s
          then new ++ replace_go old new (pred (List.length old)) s'
          else c :: replace_go old new O s'
      end
  end.

Definition str_replace (old new s : text) : text := replace_go old new O s.

(** [str.split(sep)] for a one-character separator. *)
Fixpoint split_on (sep : char) (s : text) : list text :=
  match s with
  | [] => [[]]
  | c :: s' =>
      if c =? sep then [] :: split_on sep s'
      else match split_on sep s' with
           | p :: ps => (c :: p) :: ps
           | [] => [[c]]
           end
  end.

(** ** [int] and [str] *)

Local Open Scope Z_scope.

Fixpoint int_digits (acc : Z) (s : text) : option Z :=
  match s with
  | [] => Some acc
  | c :: s' =>
      match digit_value c with
      | Some d => int_digits (10 * acc + d) s'
      | None => None
      end
  end.

(** The interpreter refuses a decimal string longer than the limit; a
    string of up to 640 digits is never checked. *)
Definition too_many_digits (s : text) : bool :=
  let n := N.of_nat (List.length s) in
  ((640 <? n) && (0 <? int_max_str_digits I) && (int_max_str_digits I <? n))%N.

(** [int(s)] for a string of decimal digits, which is all the function
    passes to it (signs, underscores and surrounding blanks, which [int]
    accepts too, never reach it). *)
Definition py_int (s : text) : result Z :=
  match s with
  | [] => Raise ValueError
  | _ :: _ =>
      match int_digits 0 s with
      | Some n => if too_many_digits s then Raise ValueError else Ok n
      | None => Raise ValueError
      end
  end.

Fixpoint uint_text (d : Decimal.uint) : text :=
  match d with
  | Decimal.Nil => []
  | Decimal.D0 d => 48%N :: uint_text d
  | Decimal.D1 d => 49%N :: uint_text d
  | Decimal.D2 d => 50%N :: uint_text d
  | Decimal.D3 d => 51%N :: uint_text d
  | Decimal.D4 d => 52%N :: uint_text d
  | Decimal.D5 d => 53%N :: uint_text d
  | Decimal.D6 d => 54%N :: uint_text d
  | Decimal.D7 d => 55%N :: uint_text d
  | Decimal.D8 d => 56%N :: uint_text d
  | Decimal.D9 d => 57%N :: uint_text d
  end.

(** [str(n)], also [f"{n}"], for an [int] that is not negative.  The
    conversion limit applies here as well, but every [int] the function
    formats is at most the value of a digit string [py_int] accepted, so
    it has no more digits than that string. *)
Definition py_str (n : Z) : text := uint_text (N.to_uint (Z.to_N n)).

(** ** Floats

    A finite positive binary64 value [fman * 2^fexp] with
    [2^52 <= fman < 2^53], or zero. *)

Record float := mkfloat { fman : Z; fexp : Z }.

(** The integer nearest to [n / d], ties to the even one ([0 < d]). *)
Definition round_half_even (n d : Z) : Z :=
  let q := n / d in
  match 2 * (n mod d) ?= d with
  | Lt => q
  | Eq => if Z.even q then q else q + 1
  | Gt => q + 1
  end.

(** [a / (b * 2^e)] rounded to the nearest integer. *)
Definition scaled (a b e : Z) : Z :=
  if 0 <=? e then round_half_even a (b * 2 ^ e)
  else round_half_even (a * 2 ^ (- e)) b.

(** [a / b < 2^l] *)
Definition below_pow2 (a b l : Z) : bool :=
  if 0 <=? l then a <? b * 2 ^ l else a * 2 ^ (- l) <? b.

(** [a / b] of two [int]s ([0 <= a]): the binary64 value nearest to the
    exact quotient, [OverflowError] when that is beyond the largest
    float.  The quotients of the function are at least [1e-9], far from
    the subnormal range, which is left out. *)
Definition true_div (a b : Z) : result float :=
  if b =? 0 then Raise ZeroDivisionError
  else if a =? 0 then Ok (mkfloat 0 0)
  else
    let l := Z.log2 a - Z.log2 b in
    let e := if below_pow2 a b l then l - 53 else l - 52 in
    let m := scaled a b e in
    let '(m, e) := if m =? 2 ^ 53 then (2 ^ 52, e + 1) else (m, e) in
    if 1024 <? e + 53 then Raise OverflowError else Ok (mkfloat m e).

(** [x < k] for a float and an [int]; Python compares the exact values. *)
Definition float_ltb (x : float) (k : Z) : bool :=
  if 0 <=? fexp x then fman x * 2 ^ fexp x <? k
  else fman x <? k * 2 ^ (- fexp x).

(** [int(x)]: truncation. *)
Definition float_trunc (x : float) : Z :=
  if 0 <=? fexp x then fman x * 2 ^ fexp x
  else fman x / 2 ^ (- fexp x).

(** [f"{x:.1f}"]: the exact value rounded to one decimal, ties to even. *)
Definition format_1f (x : float) : text :=
  let t := if 0 <=? fexp x then 10 * fman x * 2 ^ fexp x
           else round_half_even (10 * fman x) (2 ^ (- fexp x)) in
  py_str (t / 10) ++ ch "." :: py_str (t mod 10).

(** ** The function *)

Local Close Scope Z_scope.
Local Open Scope string_scope.
Local Open Scope list_scope.

(** The table of abbreviations, in the order of the dictionary. *)
Definition abbreviations : list (text * text) :=
  [ (txt "MBps", txt "megabytes per second");
    (txt "Mbps", txt "megabits per second");
    (txt "GBps", txt "gigabytes per second");
    (txt "Gbps", txt "gigabits per second");
    (txt "KBps", txt "kilobytes per second");
    (txt "Kbps", txt "kilobits per second");
    (txt "KiB/s", txt "kilobytes per second");
    (txt "Bytes/s", txt "bytes per second");
    (txt "MB", txt "megabytes");
    (txt "GB", txt "gigabytes");
    (txt "TB", txt "terabytes");
    (txt "KB", txt "kilobytes");
    (txt "PB", txt "petabytes");
    (txt "MHz", txt "megahertz");
    (txt "GHz", txt "gigahertz");
    (txt "kHz", txt "kilohertz");
    (txt "mW", txt "milliwatts");
    (txt "W", txt "watts");
    (txt "kW", txt "kilowatts");
    (txt "ms", txt "milliseconds");
    (txt "0 us", txt "0");
    (txt "us", txt "microseconds");
    (txt "ns", txt "nanoseconds");
    (txt "JSON", txt "jay son");
    (txt "YAML", txt "yah ml") ].

(** [r'\b' + re.escape(abbrev) + r'\b'] *)
Definition abbrev_pattern (abbrev : text) : regex :=
  Bound :: lit abbrev ++ [Bound].

Definition expand_abbreviations (s : text) : text :=
  fold_left (fun t ae => re_sub (abbrev_pattern (fst ae)) (snd ae) t)
            abbreviations s.

Local Open Scope Z_scope.

Definition format_number (num_str : text) : result text :=
  num <- py_int num_str ;;
  if 1000000000 <=? num then
    if num mod 1000000000 =? 0
    then Ok (py_str (num / 1000000000) ++ txt " billion")
    else x <- true_div num 1000000000 ;; Ok (format_1f x ++ txt " billion")
  else if 1000000 <=? num then
    if num mod 1000000 =? 0
    then Ok (py_str (num / 1000000) ++ txt " million")
    else x <- true_div num 1000000 ;; Ok (format_1f x ++ txt " million")
  else if 100000 <=? num then
    thousands <- true_div num 1000 ;;
    millions <- true_div num 1000000 ;;
    if (num mod 1000 =? 0) && float_ltb thousands 1000
    then Ok (py_str (float_trunc thousands) ++ txt " thousand")
    else if num mod 100000 =? 0
    then Ok (py_str (num / 100000) ++ txt " hundred thousand")
    else Ok (format_1f millions ++ txt " million")
  else if 1000 <=? num then
    if num mod 1000 =? 0
    then Ok (py_str (num / 1000) ++ txt " thousand")
    else x <- true_div num 1000 ;; Ok (format_1f x ++ txt " thousand")
  else Ok num_str.

Definition dot : char := ch ".".

Definition format_decimal (decimal_str : text) : result text :=
  if existsb (N.eqb dot) decimal_str then
    match split_on dot decimal_str with
    | p0 :: decimal_part :: _ =>
        integer_part <- match p0 with [] => Ok 0 | _ :: _ => py_int p0 end ;;
        if (List.length decimal_part =? 1)%nat then
          digit <- py_int decimal_part ;;
          if digit =? 5 then
            Ok (if 0 <? integer_part
                then py_str integer_part ++ txt " and a half"
                else txt "half")
          else
            Ok (if 0 <? integer_part
                then py_str integer_part ++ txt " point " ++ py_str digit
                else py_str digit ++ txt " tenths")
        else if (List.length decimal_part =? 2)%nat then
          decimal_num <- py_int decimal_part ;;
          if decimal_num =? 0 then
            Ok (if 0 <? integer_part then py_str integer_part else txt "zero")
          else if decimal_num <? 10 then
            Ok (if 0 <? integer_part
                then py_str integer_part ++ txt " point zero "
                     ++ py_str decimal_num
                else py_str decimal_num ++ txt " hundredths")
          else
            Ok (if 0 <? integer_part
                then py_str integer_part ++ txt " point " ++ py_str decimal_num
                else py_str decimal_num ++ txt " hundredths")
        else
          Ok (if 0 <? integer_part
              then py_str integer_part ++ txt " point " ++ decimal_part
              else txt "point " ++ decimal_part)
    | _ => Raise IndexError
    end
  else Ok decimal_str.

Local Close Scope Z_scope.

(** [\b\d{4,}\b] *)
Definition number_re : regex := [Bound; Rep is_digit 4 None; Bound].

(** [\b\d*\.\d+\b] *)
Definition decimal_re : regex :=
  [Bound; Rep is_digit 0 None; Chr (N.eqb dot); Rep is_digit 1 None; Bound].

(** [-[0-9a-f]{10}-[a-z0-9]{5}\b] *)
Definition suffix_re : regex :=
  [Chr (N.eqb (ch "-")); Rep hex_lower 10 (Some 10%nat);
   Chr (N.eqb (ch "-")); Rep lower_alnum 5 (Some 5%nat); Bound].

(** [\b0x[0-9a-f]{6,}\b], IGNORECASE *)
Definition hex0x_re : regex :=
  Bound :: lit_nocase (txt "0x") ++ [Rep hex_nocase 6 None; Bound].

(** [\b[0-9a-f]{8,}\b], IGNORECASE *)
Definition hex8_re : regex := [Bound; Rep hex_nocase 8 None; Bound].

(** [\bsha256:[0-9a-f]{8,}\b], IGNORECASE *)
Definition sha_re : regex :=
  Bound :: lit_nocase (txt "sha256:") ++ [Rep hex_nocase 8 None; Bound].

(** [id: cri-o://\S+] *)
Definition crio_re : regex :=
  lit (txt "id: cri-o://") ++ [Rep (fun c => negb (is_space c)) 1 None].

(** [\b[0-9a-f]{12,}\b] *)
Definition hex12_re : regex := [Bound; Rep hex_lower 12 None; Bound].

(** [container ID\s+ID\b] *)
Definition container_re : regex :=
  lit (txt "container ID") ++ Rep is_space 1 None :: lit (txt "ID") ++ [Bound].

(** [@sha256:[0-9a-f]+] *)
Definition digest_re : regex :=
  lit (txt "@sha256:") ++ [Rep hex_lower 1 None].

(** [\b[A-Za-z0-9+/]{20,}={0,2}\b] *)
Definition base64_re : regex :=
  [Bound; Rep base64_char 20 None; Rep (N.eqb (ch "=")) 0 (Some 2%nat); Bound].

(** [\*+] *)
Definition stars_re : regex := [Rep (N.eqb (ch "*")) 1 None].

(** The redactions of technical values, in the order of the source. *)
Definition redact (s : text) : text :=
  let s := re_sub suffix_re (txt " with generated suffix") s in
  let s := re_sub hex0x_re (txt "-") s in
  let s := re_sub hex8_re (txt "-") s in
  let s := re_sub sha_re (txt "SHA hash") s in
  let s := re_sub crio_re (txt "container ID") s in
  let s := re_sub hex12_re (txt "long ID") s in
  let s := re_sub container_re (txt "container ID") s in
  let s := re_sub digest_re (txt " at SHA digest") s in
  re_sub base64_re (txt "encoded value") s.

(** The closing literal replacements; [176] is the degree sign. *)
Definition replacements : list (text * text) :=
  [ ([176%N; ch "C"], txt " Celsius ");
    (txt "`", txt " ");
    (txt "/", txt " ");
    (txt "_", txt " ") ].

Definition cleanup (s : text) : text :=
  let s := re_sub stars_re [] s in
  fold_left (fun t on => str_replace (fst on) (snd on) t) replacements s.

Definition preprocess_abbreviations (s : text) : result text :=
  let s := expand_abbreviations s in
  s <- re_sub_fn number_re format_number s ;;
  s <- re_sub_fn decimal_re format_decimal s ;;
  Ok (cleanup (redact s)).

(** ** [self_check] *)

Definition test_cases : list (string * string) :=
  [ ("Transfer rate: 100 MBps", "Transfer rate: 100 megabytes per second");
    ("Network speed: 1 Gbps", "Network speed: 1 gigabits per second");
    ("Download: 50 Mbps", "Download: 50 megabits per second");
    ("Bandwidth: 10 KBps", "Bandwidth: 10 kilobytes per second");
    ("File size: 500 MB", "File size: 500 megabytes");
    ("Disk space: 2 TB", "Disk space: 2 terabytes");
    ("Memory: 16 GB", "Memory: 16 gigabytes");
    ("Cache: 256 KB", "Cache: 256 kilobytes");
    ("Storage: 1 PB", "Storage: 1 petabytes");
    ("CPU: 3.2 GHz", "CPU: 3 point 2 gigahertz");
    ("Clock: 800 MHz", "Clock: 800 megahertz");
    ("Audio: 44 kHz", "Audio: 44 kilohertz");
    ("Power: 65 W", "Power: 65 watts");
    ("Consumption: 500 mW", "Consumption: 500 milliwatts");
    ("Load: 2 kW", "Load: 2 kilowatts");
    ("Latency: 50 ms", "Latency: 50 milliseconds");
    ("Delay: 100 us", "Delay: 100 microseconds");
    ("Response: 500 ns", "Response: 500 nanoseconds");
    ("Zero latency: 0 us", "Zero latency: 0");
    ("Config: JSON format", "Config: jay son format");
    ("Manifest: YAML file", "Manifest: yah ml file");
    ("Count: 1000", "Count: 1 thousand");
    ("Items: 5000", "Items: 5 thousand");
    ("Records: 1500000", "Records: 1 and a half million");
    ("Entries: 2000000", "Entries: 2 million");
    ("Total: 1000000000", "Total: 1 billion");
    ("Size: 150000", "Size: 150 thousand");
    ("Value: 2500000", "Value: 2 and a half million");
    ("Rate: 2.5", "Rate: 2 and a half");
    ("Value: 0.5", "Value: half");
    ("Score: 3.7", "Score: 3 point 7");
    ("Percent: 0.25", "Percent: 25 hundredths");
    ("Ratio: 1.05", "Ratio: 1 point zero 5");
    ("Factor: 0.123", "Factor: point 123");
    ("Pod: nginx-65bb5c54ff-gppzx", "Pod: nginx with generated suffix");
    ("Address: 0x7fff5fbff8a0", "Address: -");
    ("Hash: sha256:abcd1234efgh5678", "Hash: sha256:abcd1234efgh5678");
    ("Image: nginx@sha256:abc123def456", "Image: nginx@sha256:-");
    ("Token: YWJjZGVmZ2hpams1Njc4OTA=", "Token: encoded value=");
    ("Code: `example`", "Code:  example ");
    ("**Bold text**", "Bold text");
    ("*Italic text*", "Italic text");
    ("Path: /usr/bin", "Path:  usr bin") ].

Fixpoint text_eqb (a b : text) : bool :=
  match a, b with
  | [], [] => true
  | x :: a', y :: b' => (x =? y)%N && text_eqb a' b'
  | _, _ => false
  end.

(** [self_check()]: the cases are run in order and counted, passed and
    failed; the result is whether none failed.  An exception of the
    function ends the check. *)
Definition self_check_counts : result (nat * nat) :=
  fold_left
    (fun counts c =>
       pf <- counts ;;
       actual <- preprocess_abbreviations (txt (fst c)) ;;
       Ok (if text_eqb actual (txt (snd c))
           then (S (fst pf), snd pf)
           else (fst pf, S (snd pf))))
    test_cases (Ok (O, O)).

Definition self_check : result bool :=
  pf <- self_check_counts ;; Ok (Nat.eqb (snd pf) O).

End Runtime.


Local Open Scope string_scope.
Local Open Scope list_scope.
Local Open Scope N_scope.

(** ** [speak_text]

    The speech services are outside the repository: gTTS and pygame,
    and the commands of the system.  What they answer is a parameter of
    the embedding; what the function asks of them, and in which order,
    is recorded. *)

Inductive command := espeak | say | spd_say.

(** [subprocess.run([command, text], check=True, capture_output=True)]:
    it completes, or raises one of the two exceptions the function
    catches, or another one. *)
Inductive run_outcome :=
| Completed
| CalledProcessError
| FileNotFoundError
| OtherError.

(** [pygame.mixer.init] with one configuration: it returns, or raises
    [pygame.error], which the loop over the configurations catches, or
    another exception. *)
Inductive init_outcome := Initialized | PygameError | InitFailed.

Record Services := {
  (** [gTTS(text)] and [write_to_fp] give the audio *)
  synthesize : text -> bool;
  (** [mixer.init] with the configuration of that index *)
  mixer_init : nat -> init_outcome;
  (** the audio is loaded and played to its end, and the mixer closed *)
  playback : bool;
  subprocess_run : command -> text -> run_outcome
}.

Inductive action :=
| Synthesize (t : text)
| MixerInit (config : nat)
| Playback
| Warning
| Subprocess (c : command) (t : text).

(** What [speak_text] raises: an exception of the normalizer, or of a
    command, which is none of the two it catches. *)
Inductive raised :=
| Normalizer (e : exn)
| Command (c : command).

Section Speech.

Variable I : Interp.
Variable W : Services.

(** The configurations of [audio_drivers], by index. *)
Definition audio_drivers : list nat := [0; 1; 2]%nat.

(** The loop over the configurations: the first that initializes ends
    it. *)
Fixpoint init_mixer (configs : list nat) : list action * bool :=
  match configs with
  | [] => ([], false)
  | config :: rest =>
      match mixer_init W config with
      | Initialized => ([MixerInit config], true)
      | PygameError =>
          let '(acts, ok) := init_mixer rest in (MixerInit config :: acts, ok)
      | InitFailed => ([MixerInit config], false)
      end
  end.

(** The body of the outer [try]: whether it ends without an exception. *)
Definition gtts_pygame (t : text) : list action * bool :=
  if synthesize W t then
    let '(acts, ok) := init_mixer audio_drivers in
    if ok then (Synthesize t :: acts ++ [Playback], playback W)
    else (Synthesize t :: acts, false)
  else ([Synthesize t], false).

(** The commands of the fallback, in the order of the nested [try]
    statements. *)
Definition system_commands : list command := [espeak; say; spd_say].

Fixpoint system_tts (cmds : list command) (t : text)
    : list action * option raised :=
  match cmds with
  | [] => ([Warning], None)
  | c :: rest =>
      match subprocess_run W c t with
      | Completed => ([Subprocess c t], None)
      | CalledProcessError | FileNotFoundError =>
          let '(acts, r) := system_tts rest t in (Subprocess c t :: acts, r)
      | OtherError => ([Subprocess c t], Some (Command c))
      end
  end.

(** [speak_text(text)]: what it asks of the services, and the exception
    it raises, if any. *)
Definition speak_text (s : text) : list action * option raised :=
  match preprocess_abbreviations I s with
  | Raise e => ([], Some (Normalizer e))
  | Ok t =>
      let '(acts, ok) := gtts_pygame t in
      if ok then (acts, None)
      else
        let '(acts', r) := system_tts system_commands t in
        (acts ++ Warning :: acts', r)
  end.

(** The text an action hands to a service. *)
Definition spoken (a : action) : option text :=
  match a with
  | Synthesize t | Subprocess _ t => Some t
  | _ => None
  end.

(** The commands among the actions. *)
Fixpoint commands_run (acts : list action) : list command :=
  match acts with
  | [] => []
  | Subprocess c _ :: acts' => c :: commands_run acts'
  | _ :: acts' => commands_run acts'
  end.

(** The command failed with one of the two exceptions that are caught. *)
Definition caught (c : command) (t : text) : bool :=
  match subprocess_run W c t with
  | CalledProcessError | FileNotFoundError => true
  | _ => false
  end.

End Speech.

(** * Notions used in the statements *)

Section Notions.

Variable I : Interp.

(** The last character of [w], or [prev] before an empty [w]. *)
Definition last_of (prev : option char) (w : text) : option char :=
  match w with [] => prev | _ :: _ => Some (last w 0) end.

(** The length of the longest prefix in the class [p]. *)
Fixpoint run (p : char -> bool) (s : text) : nat :=
  match s with
  | c :: s' => if p c then S (run p s') else O
  | [] => O
  end.

(** The characters of [s] are in the classes [ps], one by one. *)
Fixpoint chars_match (ps : list (char -> bool)) (s : text) : bool :=
  match ps, s with
  | [], _ => true
  | p :: ps', c :: s' => p c && chars_match ps' s'
  | _ :: _, [] => false
  end.

(** [\b] as a continuation: the end of a pattern that closes on a
    boundary. *)
Definition at_boundary (prev : option char) (s : text) : option nat :=
  if boundary I prev s then Some O else None.

(** [\b p{lo,} \b] *)
Definition bounded_run (p : char -> bool) (lo : nat) : regex :=
  [Bound; Rep p lo None; Bound].

(** Whether [\b p{lo,} \b] matches at a position: the run of [p] there
    is long enough and has no word character on either side. *)
Definition bounded_hit (p : char -> bool) (lo : nat)
    (prev : option char) (s : text) : bool :=
  (lo <=? run p s)%nat && negb (opt_word I prev)
  && negb (opt_word I (hd_error (skipn (run p s) s))).

(** A pattern with a mandatory character. *)
Definition mandatory (r : regex) : bool :=
  existsb (fun it => match it with Rep _ (S _) _ => true | _ => false end) r.

(** The patterns of the function. *)
Definition patterns : list regex :=
  map (fun ae => abbrev_pattern (fst ae)) abbreviations
  ++ [number_re I; decimal_re I; suffix_re; hex0x_re; hex8_re; sha_re;
      crio_re; hex12_re; container_re; digest_re; base64_re; stars_re].

(** The text [re.sub] puts together from the pieces of the scan. *)
Definition render (repl : text) (ps : list piece) : text :=
  flat_map (fun p => match p with Keep c => [c] | Hit _ => repl end) ps.

(** Whether the pattern matches nowhere in [s], which follows [prev]. *)
Fixpoint unmatched (r : regex) (prev : option char) (s : text) : bool :=
  match s with
  | [] => true
  | c :: s' =>
      match matches I r prev s with
      | Some (S _) => false
      | _ => unmatched r (Some c) s'
      end
  end.

(** The pattern occurs in the text. *)
Definition occurs (r : regex) (s : text) : bool := negb (unmatched r None s).

(** [\d\.\d]: a decimal point between two digits. *)
Definition raw_decimal_point : regex :=
  [Chr (is_digit I); Chr (N.eqb dot); Chr (is_digit I)].

(** A markup character of the closing stage: the asterisk, the backtick,
    the slash or the underscore. *)
Definition markup (c : char) : bool :=
  (c =? 42) || (c =? 96) || (c =? 47) || (c =? 95).

(** The character [o] is not in [s]. *)
Definition without (o : char) (s : text) : bool :=
  forallb (fun c => negb (c =? o)) s.

(** The first and the last character of an abbreviation are word
    characters. *)
Definition word_ends (a : text) : bool :=
  opt_word I (hd_error a) && opt_word I (last_of None a).





Local Open Scope Z_scope.

(** The words for a decimal with integer part [n] and decimal digits
    [b] of value [d], by the number of decimal digits, after the
    specification. *)
Definition decimal_words (n d : Z) (b : text) : text :=
  match List.length b with
  | 1%nat =>
      if d =? 5 then
        if 0 <? n then py_str n ++ txt " and a half" else txt "half"
      else
        if 0 <? n then py_str n ++ txt " point " ++ py_str d
        else py_str d ++ txt " tenths"
  | 2%nat =>
      if d =? 0 then
        if 0 <? n then py_str n else txt "zero"
      else if d <? 10 then
        if 0 <? n then py_str n ++ txt " point zero " ++ py_str d
        else py_str d ++ txt " hundredths"
      else
        if 0 <? n then py_str n ++ txt " point " ++ py_str d
        else py_str d ++ txt " hundredths"
  | _ =>
      if 0 <? n then py_str n ++ txt " point " ++ b else txt "point " ++ b
  end.

(** [f"{n / unit:.1f}"], when the division does not overflow. *)
Definition one_decimal (n unit : Z) : text :=
  match true_div n unit with
  | Ok x => format_1f x
  | Raise _ => []
  end.

(** The tenths that [f"{x:.1f}"] writes. *)
Definition tenths (x : float) : Z :=
  if 0 <=? fexp x then 10 * fman x * 2 ^ fexp x
  else round_half_even (10 * fman x) (2 ^ (- fexp x)).

(** The words for a number of four or more digits, by magnitude, after
    the specification. *)
Definition number_words (n : Z) (num_str : text) : text :=
  if 1000000000 <=? n then
    if n mod 1000000000 =? 0
    then py_str (n / 1000000000) ++ txt " billion"
    else one_decimal n 1000000000 ++ txt " billion"
  else if 1000000 <=? n then
    if n mod 1000000 =? 0
    then py_str (n / 1000000) ++ txt " million"
    else one_decimal n 1000000 ++ txt " million"
  else if 100000 <=? n then
    if (n mod 1000 =? 0) && (n / 1000 <? 1000)
    then py_str (n / 1000) ++ txt " thousand"
    else if n mod 100000 =? 0
    then py_str (n / 100000) ++ txt " hundred thousand"
    else one_decimal n 1000000 ++ txt " million"
  else if 1000 <=? n then
    if n mod 1000 =? 0
    then py_str (n / 1000) ++ txt " thousand"
    else one_decimal n 1000 ++ txt " thousand"
  else num_str.

(** The quotient of [1000 * k] by a thousand is the float [k], below a
    thousand. *)
Definition exact_thousands (k : Z) : bool :=
  match true_div (1000 * k) 1000 with
  | Ok x => (float_trunc x =? k) && float_ltb x 1000
  | Raise _ => false
  end.

Local Close Scope Z_scope.

Definition container_id : text := txt "container ID".

(** [redact] without the two rules that never match. *)
Definition redact_live (s : text) : text :=
  let s := re_sub I suffix_re (txt " with generated suffix") s in
  let s := re_sub I hex0x_re (txt "-") s in
  let s := re_sub I hex8_re (txt "-") s in
  let s := re_sub I crio_re (txt "container ID") s in
  let s := re_sub I container_re (txt "container ID") s in
  let s := re_sub I digest_re (txt " at SHA digest") s in
  re_sub I base64_re (txt "encoded value") s.

(** Whether a word character follows the run of [p] at the start of [s]. *)
Definition after_run (p : char -> bool) (s : text) : bool :=
  opt_word I (hd_error (skipn (run p s) s)).

(** The number of decimal digits in a text. *)
Definition digits (s : text) : nat := List.length (filter (is_digit I) s).

(** The text that the pieces of a scan stand for. *)
Definition covered (ps : list piece) : text :=
  flat_map (fun p => match p with Keep c => [c] | Hit m => m end) ps.

(** The degree sign with [C]. *)
Definition degree_celsius : text := [176; ch "C"].

(** The text [w] starts nowhere in [s]. *)
Fixpoint absent (w s : text) : bool :=
  match s with
  | [] => true
  | _ :: s' => negb (starts_with w s) && absent w s'
  end.

Local Open Scope Z_scope.

(** The value of a decimal numeral, most significant digit first. *)
Fixpoint uint_value (acc : Z) (u : Decimal.uint) : Z :=
  match u with
  | Decimal.Nil => acc
  | Decimal.D0 u => uint_value (10 * acc) u
  | Decimal.D1 u => uint_value (10 * acc + 1) u
  | Decimal.D2 u => uint_value (10 * acc + 2) u
  | Decimal.D3 u => uint_value (10 * acc + 3) u
  | Decimal.D4 u => uint_value (10 * acc + 4) u
  | Decimal.D5 u => uint_value (10 * acc + 5) u
  | Decimal.D6 u => uint_value (10 * acc + 6) u
  | Decimal.D7 u => uint_value (10 * acc + 7) u
  | Decimal.D8 u => uint_value (10 * acc + 8) u
  | Decimal.D9 u => uint_value (10 * acc + 9) u
  end.

End Notions.

(** Services for a machine with no network and no audio device, where
    [say] is the one command installed. *)
Definition say_only : Services :=
  {| synthesize := fun _ => false;
     mixer_init := fun _ => PygameError;
     playback := false;
     subprocess_run := fun c _ =>
       match c with say => Completed | _ => FileNotFoundError end |}.

(** * Properties *)

Section Matcher.

Variable I : Interp.

(** ** Character classes *)

Lemma is_digit_word (c : char) : is_digit I c = true -> is_word I c = true.
Proof.
  unfold is_word, is_digit, digit_value.
  destruct (c <? 128).
  - destruct (ascii_digit c); [reflexivity | discriminate].
  - intros ->. reflexivity.
Qed.

Lemma hex_nocase_word (c : char) : hex_nocase c = true -> is_word I c = true.
Proof.
  unfold hex_nocase, hex_lower, is_word, ascii_digit, ascii_lower,
    ascii_upper, in_range.
  intros H.
  assert (c < 128) as ->%N.ltb_lt.
  { repeat (apply orb_true_iff in H as [H | H]);
      apply andb_true_iff in H as [_ H%N.leb_le]; lia. }
  repeat (apply orb_true_iff in H as [H | H]);
    apply andb_true_iff in H as [H1%N.leb_le H2%N.leb_le].
  - replace (48 <=? c) with true by (symmetry; apply N.leb_le; lia).
    replace (c <=? 57) with true by (symmetry; apply N.leb_le; lia).
    reflexivity.
  - replace (97 <=? c) with true by (symmetry; apply N.leb_le; lia).
    replace (c <=? 122) with true by (symmetry; apply N.leb_le; lia).
    apply orb_true_iff; left. apply orb_true_iff; left.
    apply orb_true_r.
  - replace (65 <=? c) with true by (symmetry; apply N.leb_le; lia).
    replace (c <=? 90) with true by (symmetry; apply N.leb_le; lia).
    apply orb_true_iff; left. apply orb_true_r.
Qed.

Lemma hex_lower_nocase (c : char) : hex_lower c = true -> hex_nocase c = true.
Proof. unfold hex_nocase. intros ->. reflexivity. Qed.

(** ** Repetitions *)

Lemma rep_exhausted p k prev s : rep p 0 (Some 0%nat) k prev s = k prev s.
Proof. destruct s; simpl; [| rewrite andb_false_r]; reflexivity. Qed.

(** A literal character. *)
Lemma rep_chr p k prev s :
  rep p 1 (Some 1%nat) k prev s =
  match s with
  | c :: s' => if p c then option_map S (k (Some c) s') else None
  | [] => None
  end.
Proof.
  destruct s as [| c s']; simpl; [reflexivity |].
  destruct (p c); simpl; [| reflexivity].
  rewrite rep_exhausted. destruct (k (Some c) s'); reflexivity.
Qed.

Lemma last_of_cons prev c w : last_of prev (c :: w) = last_of (Some c) w.
Proof. destruct w; reflexivity. Qed.


Lemma run_app p u s :
  forallb p u = true -> run p (u ++ s) = (List.length u + run p s)%nat.
Proof.
  induction u as [| c u IH]; simpl; [reflexivity |].
  intros [-> H]%andb_true_iff. now rewrite IH.
Qed.

Lemma run_firstn p s : forallb p (firstn (run p s) s) = true.
Proof.
  induction s as [| c s IH]; simpl; [reflexivity |].
  destruct (p c) eqn:E; simpl; [rewrite E; exact IH | reflexivity].
Qed.

Lemma run_skipn p s :
  match skipn (run p s) s with c :: _ => p c = false | [] => True end.
Proof.
  induction s as [| c s IH]; simpl; [exact Logic.I |].
  destruct (p c) eqn:E; simpl; [exact IH | exact E].
Qed.

Lemma run_le p s : (run p s <= List.length s)%nat.
Proof.
  induction s as [| c s IH]; simpl; [lia |]. destruct (p c); simpl; lia.
Qed.


End Matcher.

Section BoundedRuns.
Variable I : Interp.

Lemma matches_bound_end prev s : matches I [Bound] prev s = (at_boundary I) prev s.
Proof. reflexivity. Qed.

Lemma boundary_word_word prev c s :
  opt_word I prev = true -> is_word I c = true -> boundary I prev (c :: s) = false.
Proof. unfold boundary; simpl. intros -> ->. reflexivity. Qed.

(** Inside a run of word characters no boundary stops a repetition: it
    ends at the end of the run or fails. *)
Lemma rep_to_boundary p lo prev s :
  (forall c, p c = true -> is_word I c = true) ->
  (lo = O -> opt_word I prev = true) ->
  rep p lo None (at_boundary I) prev s =
  if (lo <=? run p s)%nat
     && boundary I (last_of prev (firstn (run p s) s)) (skipn (run p s) s)
  then Some (run p s) else None.
Proof.
  intros Hp. revert prev lo; induction s as [| c s IH]; intros prev lo Hlo.
  - simpl. destruct lo; simpl; reflexivity.
  - cbn [rep run]. destruct (p c) eqn:Hc; cbn [andb may_take option_map].
    + rewrite (IH (Some c) (pred lo)) by (intros _; simpl; auto).
      cbn [firstn skipn]. rewrite last_of_cons.
      replace (lo <=? S (run p s))%nat with (pred lo <=? run p s)%nat.
      2:{ destruct lo; reflexivity. }
      destruct (_ && _); [reflexivity |].
      destruct lo; [| reflexivity].
      unfold at_boundary. rewrite boundary_word_word; auto.
    + cbn [firstn skipn last_of]. destruct lo; reflexivity.
Qed.

Lemma last_of_run_word p prev s :
  (forall c, p c = true -> is_word I c = true) ->
  (1 <= run p s)%nat ->
  opt_word I (last_of prev (firstn (run p s) s)) = true.
Proof.
  intros Hp. revert prev; induction s as [| c s IH]; intros prev; simpl.
  - lia.
  - destruct (p c) eqn:Hc; [| lia]. intros _.
    cbn [firstn]. rewrite last_of_cons.
    destruct (Nat.eq_dec (run p s) O) as [Hr | Hr].
    + rewrite Hr. simpl. auto.
    + apply IH. lia.
Qed.

Lemma bounded_run_matches p lo prev s :
  (forall c, p c = true -> is_word I c = true) ->
  (1 <= lo)%nat ->
  matches I (bounded_run p lo) prev s =
  if bounded_hit I p lo prev s then Some (run p s) else None.
Proof.
  intros Hp Hlo. unfold bounded_run, bounded_hit.
  cbn [matches]. change (matches I []) with (fun (_ : option char) (_ : text) => Some O).
  change (fun prev0 s0 => if boundary I prev0 s0 then Some O else None) with (at_boundary I).
  rewrite rep_to_boundary by (auto; lia).
  destruct (lo <=? run p s)%nat eqn:Hr; cbn [andb].
  - apply Nat.leb_le in Hr.
    assert (H1 : (1 <= run p s)%nat) by lia.
    unfold boundary at 2. rewrite (last_of_run_word p prev s Hp H1).
    destruct s as [| c s]; [simpl in H1; lia |].
    simpl in H1. unfold boundary. cbn [hd_error opt_word].
    destruct (p c) eqn:Hc; [| lia].
    rewrite (Hp c Hc). cbn [run]. rewrite Hc.
    destruct (opt_word I prev); cbn [xorb negb andb]; [reflexivity |].
    destruct (opt_word I _); reflexivity.
  - destruct (boundary I prev s); reflexivity.
Qed.

End BoundedRuns.

Section Scan.
Variable I : Interp.

Lemma re_sub_render r repl s : re_sub I r repl s = render repl (scan I r s).
Proof. reflexivity. Qed.

Lemma render_keep repl s : render repl (map Keep s) = s.
Proof. induction s as [| c s IH]; simpl; [| rewrite IH]; reflexivity. Qed.

Lemma render_app repl ps qs :
  render repl (ps ++ qs) = render repl ps ++ render repl qs.
Proof. apply flat_map_app. Qed.

Lemma scan_go_skip r n prev s :
  scan_go I r n prev s =
  scan_go I r O (last_of prev (firstn n s)) (skipn n s).
Proof.
  revert prev s; induction n as [| n IH]; intros prev s; [reflexivity |].
  destruct s as [| c s]; [reflexivity |].
  cbn [scan_go firstn skipn]. now rewrite IH, last_of_cons.
Qed.

Lemma scan_unmatched r prev s :
  unmatched I r prev s = true -> scan_go I r O prev s = map Keep s.
Proof.
  revert prev; induction s as [| c s IH]; intros prev; [reflexivity |].
  cbn [unmatched scan_go map].
  destruct (matches I r prev (c :: s)) as [[| n] |]; try discriminate;
    intros H; now rewrite IH.
Qed.

Lemma re_sub_unmatched r repl s :
  unmatched I r None s = true -> re_sub I r repl s = s.
Proof.
  intros H. unfold re_sub, scan. rewrite scan_unmatched by exact H.
  apply render_keep.
Qed.

(** *** Word-bounded runs replaced by one character that is not a word
    character *)

Section Bounded.

Variable p : char -> bool.
Variable lo : nat.
Hypothesis p_word : forall c, p c = true -> is_word I c = true.
Hypothesis lo_pos : (1 <= lo)%nat.
Variable d : char.
Hypothesis d_not_word : is_word I d = false.

Let r := bounded_run p lo.

Lemma p_d : p d = false.
Proof.
  destruct (p d) eqn:E; [| reflexivity].
  apply p_word in E. congruence.
Qed.

Lemma bounded_scan_cons prev c s :
  scan_go I r O prev (c :: s) =
  if bounded_hit I p lo prev (c :: s)
  then Hit (firstn (run p (c :: s)) (c :: s))
         :: scan_go I r O (last_of prev (firstn (run p (c :: s)) (c :: s)))
                    (skipn (run p (c :: s)) (c :: s))
  else Keep c :: scan_go I r O (Some c) s.
Proof.
  cbn [scan_go]. unfold r. rewrite bounded_run_matches by assumption.
  destruct (bounded_hit I p lo prev (c :: s)) eqn:Hh; [| reflexivity].
  assert (Hr : (1 <= run p (c :: s))%nat).
  { unfold bounded_hit in Hh.
    apply andb_true_iff in Hh as [[Hh%Nat.leb_le _]%andb_true_iff _]. lia. }
  destruct (run p (c :: s)) as [| n] eqn:E; [lia |].
  rewrite scan_go_skip. cbn [firstn skipn]. now rewrite last_of_cons.
Qed.

Lemma bounded_hit_no_run prev s : run p s = O -> bounded_hit I p lo prev s = false.
Proof.
  unfold bounded_hit. intros ->.
  destruct lo; [lia | reflexivity].
Qed.

Lemma bounded_hit_after_word prev s :
  opt_word I prev = true -> bounded_hit I p lo prev s = false.
Proof.
  unfold bounded_hit. intros ->. cbn [negb]. now rewrite andb_false_r.
Qed.

(** Where the pattern does not match at the start of a run, the scan
    keeps the whole run. *)
Lemma bounded_scan_run prev s :
  bounded_hit I p lo prev s = false ->
  scan_go I r O prev s =
  map Keep (firstn (run p s) s)
  ++ scan_go I r O (last_of prev (firstn (run p s) s)) (skipn (run p s) s).
Proof.
  revert prev; induction s as [| c s IH]; intros prev Hh; [reflexivity |].
  cbn [run]. destruct (p c) eqn:Hc; [| reflexivity].
  rewrite bounded_scan_cons, Hh. cbn [firstn skipn map app].
  rewrite last_of_cons. f_equal. apply IH.
  apply bounded_hit_after_word. simpl. auto.
Qed.

(** What follows the kept run in the output starts as in the input. *)
Lemma render_scan_head prev s :
  run p s = O ->
  run p (render [d] (scan_go I r O prev s)) = O
  /\ opt_word I (hd_error (render [d] (scan_go I r O prev s)))
     = opt_word I (hd_error s).
Proof.
  intros Hr. destruct s as [| c s]; [split; reflexivity |].
  rewrite bounded_scan_cons, bounded_hit_no_run by exact Hr.
  simpl in Hr |- *. destruct (p c); [discriminate |]. split; reflexivity.
Qed.

Lemma run_skipn_zero s : run p (skipn (run p s) s) = O.
Proof.
  induction s as [| c s IH]; simpl; [reflexivity |].
  destruct (p c) eqn:E; simpl; [exact IH | now rewrite E].
Qed.

Lemma firstn_skipn_run s : firstn (run p s) s ++ skipn (run p s) s = s.
Proof. apply firstn_skipn. Qed.

Lemma run_app_zero u s :
  forallb p u = true -> run p s = O -> run p (u ++ s) = List.length u.
Proof. intros Hu Hs. rewrite run_app by exact Hu. lia. Qed.

Lemma skipn_length_app (u s : text) : skipn (List.length u) (u ++ s) = s.
Proof. induction u; simpl; auto. Qed.

(** The output of the pass has the same run, with the same neighbours,
    at every position where the input had no match. *)
Lemma bounded_hit_render prev s :
  bounded_hit I p lo prev s = false ->
  bounded_hit I p lo prev (render [d] (scan_go I r O prev s)) = false.
Proof.
  intros Hh. rewrite bounded_scan_run by exact Hh.
  rewrite render_app, render_keep.
  destruct (render_scan_head (last_of prev (firstn (run p s) s))
              (skipn (run p s) s) (run_skipn_zero s)) as [H0 H1].
  unfold bounded_hit in *.
  rewrite run_app_zero by (apply run_firstn || exact H0).
  assert (Hl : List.length (firstn (run p s) s) = run p s).
  { apply firstn_length_le, run_le. }
  rewrite Hl.
  replace (skipn (run p s) (firstn (run p s) s ++ _)) with
    (render [d] (scan_go I r O (last_of prev (firstn (run p s) s))
                         (skipn (run p s) s))).
  2:{ rewrite <- Hl at 3. now rewrite skipn_length_app. }
  rewrite H1. exact Hh.
Qed.

Lemma bounded_output_unmatched n :
  forall s prev pv,
    (List.length s <= n)%nat ->
    pv = prev \/ opt_word I (hd_error s) = false ->
    unmatched I r pv (render [d] (scan_go I r O prev s)) = true.
Proof.
  induction n as [| n IH]; intros s prev pv Hn HJ.
  - destruct s; [reflexivity | simpl in Hn; lia].
  - destruct s as [| c s]; [reflexivity |].
    rewrite bounded_scan_cons.
    destruct (bounded_hit I p lo prev (c :: s)) eqn:Hh.
    + cbn [render flat_map app]. fold (render [d]).
      cbn [unmatched]. unfold r at 1.
      rewrite bounded_run_matches by assumption.
      rewrite bounded_hit_no_run by (simpl; now rewrite p_d).
      apply IH.
      * rewrite length_skipn. simpl in Hn.
        unfold bounded_hit in Hh.
        apply andb_true_iff in Hh as [[Hh%Nat.leb_le _]%andb_true_iff _].
        simpl List.length. lia.
      * right. unfold bounded_hit in Hh.
        apply andb_true_iff in Hh as [_ Hh]. now apply negb_true_iff in Hh.
    + assert (Hout : bounded_hit I p lo pv
                       (render [d] (scan_go I r O prev (c :: s))) = false).
      { destruct HJ as [-> | HJ].
        - now apply bounded_hit_render.
        - simpl in HJ. rewrite bounded_scan_cons, Hh.
          apply bounded_hit_no_run. simpl.
          destruct (p c) eqn:Hc; [| reflexivity].
          apply p_word in Hc. congruence. }
      rewrite bounded_scan_cons, Hh in Hout.
      cbn [render flat_map app] in Hout |- *. fold (render [d]) in Hout |- *.
      cbn [unmatched]. unfold r at 1.
      rewrite bounded_run_matches, Hout by assumption.
      apply IH; [simpl in Hn; lia | now left].
Qed.

(** Scanning the output of the pass again finds nothing. *)
Lemma bounded_pass_unmatched s :
  unmatched I r None (re_sub I r [d] s) = true.
Proof.
  apply (bounded_output_unmatched (List.length s)); [lia | now left].
Qed.

End Bounded.

End Scan.

Section Literals.
Variable I : Interp.

Lemma matches_chrs ps r prev s :
  matches I (map Chr ps ++ r) prev s =
  if chars_match ps s
  then option_map (Nat.add (List.length ps))
         (matches I r (last_of prev (firstn (List.length ps) s))
                  (skipn (List.length ps) s))
  else None.
Proof.
  revert prev s; induction ps as [| p ps IH]; intros prev s.
  - simpl. destruct (matches I r prev s); reflexivity.
  - cbn [map app matches]. unfold Chr at 1. rewrite rep_chr.
    destruct s as [| c s]; [reflexivity |].
    cbn [chars_match]. destruct (p c); [| reflexivity].
    rewrite IH. cbn [andb List.length firstn skipn]. rewrite last_of_cons.
    destruct (chars_match ps s); [| reflexivity].
    destruct (matches I r _ _); reflexivity.
Qed.

Lemma lit_chrs w : lit w = map Chr (map N.eqb w).
Proof. unfold lit. now rewrite map_map. Qed.

Lemma lit_nocase_chrs w : lit_nocase w = map Chr (map nocase w).
Proof. unfold lit_nocase. now rewrite map_map. Qed.

Lemma chars_match_eqb w s :
  chars_match (map N.eqb w) s = true -> firstn (List.length w) s = w.
Proof.
  revert s; induction w as [| a w IH]; intros s; [reflexivity |].
  destruct s as [| c s]; [discriminate |]. simpl.
  intros [->%N.eqb_eq H]%andb_true_iff. now rewrite IH.
Qed.

Lemma chars_match_starts w s : chars_match (map N.eqb w) s = starts_with w s.
Proof.
  revert s; induction w as [| a w IH]; intros s; [reflexivity |].
  destruct s as [| c s]; [reflexivity |]. simpl. now rewrite IH.
Qed.

Lemma unmatched_app r prev u v :
  unmatched I r prev (u ++ v) = true -> unmatched I r (last_of prev u) v = true.
Proof.
  revert prev; induction u as [| c u IH]; intros prev; [trivial |].
  rewrite last_of_cons. cbn [app unmatched].
  destruct (matches I r prev (c :: u ++ v)) as [[| n] |];
    try discriminate; apply IH.
Qed.

Lemma unmatched_weaken r1 r2 :
  (forall prev s, unmatched I r1 prev s = true -> matches I r2 prev s = None) ->
  forall prev s, unmatched I r1 prev s = true -> unmatched I r2 prev s = true.
Proof.
  intros H prev s; revert prev; induction s as [| c s IH]; intros prev Hu;
    [reflexivity |].
  cbn [unmatched]. rewrite (H _ _ Hu).
  apply IH. cbn [unmatched] in Hu.
  destruct (matches I r1 prev (c :: s)) as [[| n] |]; try discriminate; exact Hu.
Qed.

Lemma hex8_is_bounded_run : hex8_re = bounded_run hex_nocase 8.
Proof. reflexivity. Qed.

Lemma dash_not_word : is_word I (ch "-") = false.
Proof. reflexivity. Qed.

(** Where the SHA rule matches, the bare-hex rule matches its digits. *)
Lemma sha_needs_hex8 prev s :
  unmatched I hex8_re prev s = true -> matches I sha_re prev s = None.
Proof.
  intros Hu. unfold sha_re. cbn [matches].
  destruct (boundary I prev s); [| reflexivity].
  rewrite lit_nocase_chrs, matches_chrs.
  destruct (chars_match _ s) eqn:Hm; [| reflexivity].
  destruct s as [| c1 [| c2 [| c3 [| c4 [| c5 [| c6 [| c7 s]]]]]]];
    try (simpl in Hm; rewrite ?andb_false_r in Hm; discriminate).
  cbn [List.length map txt list_ascii_of_string firstn skipn].
  change (c1 :: c2 :: c3 :: c4 :: c5 :: c6 :: c7 :: s)
    with ([c1; c2; c3; c4; c5; c6; c7] ++ s) in Hu.
  apply unmatched_app in Hu.
  assert (c7 = 58) as ->.
  { cbn [chars_match map txt list_ascii_of_string] in Hm.
    do 6 (apply andb_true_iff in Hm as [_ Hm]).
    apply andb_true_iff in Hm as [Hm _].
    unfold nocase in Hm. simpl in Hm.
    rewrite !orb_false_r in Hm. now apply N.eqb_eq in Hm. }
  cbn [last_of last] in Hu |- *.
  destruct s as [| c s]; [reflexivity |].
  cbn [unmatched] in Hu. rewrite hex8_is_bounded_run in Hu.
  rewrite bounded_run_matches in Hu by (try apply hex_nocase_word; lia).
  cbn [matches]. change (matches I []) with (fun (_ : option char) (_ : text) => Some O).
  change (fun prev0 s0 => if boundary I prev0 s0 then Some O else None)
    with (at_boundary I).
  rewrite rep_to_boundary by (try apply hex_nocase_word; discriminate).
  destruct (8 <=? run hex_nocase (c :: s))%nat eqn:Hr; [| reflexivity].
  cbn [andb].
  destruct (boundary I _ _) eqn:Hb; [| reflexivity].
  exfalso.
  assert (H1 : (1 <= run hex_nocase (c :: s))%nat)
    by (apply Nat.leb_le in Hr; lia).
  unfold bounded_hit in Hu. rewrite Hr in Hu.
  unfold boundary in Hb.
  match type of Hb with
  | xorb ?a _ = _ =>
      assert (Hw : a = true)
        by (apply last_of_run_word; [apply hex_nocase_word | exact H1])
  end.
  rewrite Hw in Hb.
  cbn [xorb] in Hb. apply negb_true_iff in Hb.
  rewrite Hb in Hu. cbn [opt_word] in Hu.
  change (is_word I 58) with false in Hu. cbn [negb andb] in Hu.
  destruct (run hex_nocase (c :: s)); [lia | discriminate].
Qed.

End Literals.

Section Cleanup.
Variable I : Interp.

Lemma rep_always p hi prev s :
  rep p 0 hi (fun _ _ => Some O) prev s <> None.
Proof.
  revert hi prev; induction s as [| c s IH]; intros hi prev; simpl;
    [discriminate |].
  destruct (p c && may_take hi); [| discriminate].
  destruct (rep p 0 (option_map pred hi) _ (Some c) s); discriminate.
Qed.

Lemma stars_match prev s : exists n, matches I stars_re prev (42 :: s) = Some (S n).
Proof.
  unfold stars_re. cbn [matches rep]. cbn.
  destruct (rep _ _ _ _ _ s) as [n |] eqn:E.
  - now exists n.
  - now apply rep_always in E.
Qed.

Lemma without_app o u v : without o (u ++ v) = without o u && without o v.
Proof. apply forallb_app. Qed.

Lemma without_cons o c s : without o (c :: s) = negb (c =? o) && without o s.
Proof. reflexivity. Qed.

Lemma render_keep_cons repl c ps :
  render repl (Keep c :: ps) = c :: render repl ps.
Proof. reflexivity. Qed.

Lemma render_hit_cons repl m ps :
  render repl (Hit m :: ps) = repl ++ render repl ps.
Proof. reflexivity. Qed.

Lemma stars_removed skip prev s :
  without 42 (render [] (scan_go I stars_re skip prev s)) = true.
Proof.
  revert skip prev; induction s as [| c s IH]; intros skip prev; [reflexivity |].
  cbn [scan_go]. destruct skip as [| k]; [| apply IH].
  destruct (N.eqb_spec c 42) as [-> | Hc].
  - destruct (stars_match prev s) as [n ->]. rewrite render_hit_cons. apply IH.
  - assert (Hk : without 42 (render [] (Keep c :: scan_go I stars_re 0 (Some c) s))
                 = true).
    { rewrite render_keep_cons, without_cons, IH.
      apply N.eqb_neq in Hc. now rewrite Hc. }
    destruct (matches I stars_re prev (c :: s)) as [[| n] |];
      [exact Hk | rewrite render_hit_cons; apply IH | exact Hk].
Qed.

Lemma replace_go_without o old new skip s :
  without o new = true -> without o s = true ->
  without o (replace_go old new skip s) = true.
Proof.
  intros Hn. revert skip; induction s as [| c s IH]; intros skip; [trivial |].
  rewrite without_cons. intros [Hc Hs]%andb_true_iff.
  cbn [replace_go]. destruct skip; [| now apply IH].
  destruct (starts_with old (c :: s)).
  - rewrite without_app, Hn. now apply IH.
  - rewrite without_cons, Hc. now apply IH.
Qed.

Lemma replace_go_gone o new skip s :
  without o new = true -> without o (replace_go [o] new skip s) = true.
Proof.
  intros Hn. revert skip; induction s as [| c s IH]; intros skip; [trivial |].
  cbn [replace_go]. destruct skip; [| apply IH].
  cbn [starts_with List.length pred]. rewrite andb_true_r.
  destruct (N.eqb_spec o c) as [-> | Hc].
  - rewrite without_app, Hn. apply IH.
  - rewrite without_cons, IH.
    assert (c <> o) as ->%N.eqb_neq by congruence. reflexivity.
Qed.

Lemma cleanup_unfold s :
  cleanup I s =
  str_replace [95] [32]
    (str_replace [47] [32]
       (str_replace [96] [32]
          (str_replace [176; 67] (txt " Celsius ") (re_sub I stars_re [] s)))).
Proof. reflexivity. Qed.

Lemma cleanup_no_markup s :
  forallb (fun c => negb (markup c)) (cleanup I s) = true.
Proof.
  assert (H42 : without 42 (cleanup I s) = true).
  { rewrite cleanup_unfold. unfold str_replace.
    do 4 (apply replace_go_without; [reflexivity |]).
    apply stars_removed. }
  assert (H96 : without 96 (cleanup I s) = true).
  { rewrite cleanup_unfold. unfold str_replace.
    do 2 (apply replace_go_without; [reflexivity |]).
    now apply replace_go_gone. }
  assert (H47 : without 47 (cleanup I s) = true).
  { rewrite cleanup_unfold. unfold str_replace.
    apply replace_go_without; [reflexivity |].
    now apply replace_go_gone. }
  assert (H95 : without 95 (cleanup I s) = true).
  { rewrite cleanup_unfold. unfold str_replace. now apply replace_go_gone. }
  unfold without in *. rewrite forallb_forall in *.
  intros c Hc. unfold markup.
  specialize (H42 c Hc); specialize (H96 c Hc);
    specialize (H47 c Hc); specialize (H95 c Hc).
  apply negb_true_iff in H42, H96, H47, H95.
  now rewrite H42, H96, H47, H95.
Qed.

Lemma preprocess_ok_inv s out :
  preprocess_abbreviations I s = Ok out ->
  exists t, out = cleanup I (redact I t).
Proof.
  unfold preprocess_abbreviations, bind.
  destruct (re_sub_fn I (number_re I) _ _) as [t1 |]; [| discriminate].
  destruct (re_sub_fn I (decimal_re I) _ t1) as [t2 |]; [| discriminate].
  intros [= <-]. now exists t2.
Qed.

End Cleanup.

(** ** Patterns and the source's test table *)

Section NoEmptyMatch.
Variable I : Interp.

Lemma rep_lower_bound p lo hi k :
  (lo <> O \/ forall prev s n, k prev s = Some n -> (1 <= n)%nat) ->
  forall prev s n, rep p lo hi k prev s = Some n -> (1 <= n)%nat.
Proof.
  intros H prev s; revert lo hi prev H.
  induction s as [| c s IH]; intros lo hi prev H n.
  - cbn [rep]. destruct lo; [| discriminate].
    destruct H as [H | H]; [congruence | apply H].
  - cbn [rep].
    assert (Hstop : match lo with O => k prev (c :: s) | S _ => None end = Some n
                    -> (1 <= n)%nat).
    { destruct lo; [| discriminate].
      destruct H as [H | H]; [congruence | apply H]. }
    destruct (p c && may_take hi); [| exact Hstop].
    destruct (rep p (pred lo) (option_map pred hi) k (Some c) s);
      [| exact Hstop].
    intros [= <-]. lia.
Qed.

(** A pattern with a mandatory character has no empty match. *)
Lemma matches_mandatory r :
  mandatory r = true ->
  forall prev s n, matches I r prev s = Some n -> (1 <= n)%nat.
Proof.
  induction r as [| [| p lo hi] r IH]; [discriminate | |].
  - intros H prev s n. cbn [matches].
    destruct (boundary I prev s); [| discriminate]. now apply IH.
  - intros H. cbn [matches]. apply rep_lower_bound.
    destruct lo as [| lo]; [right | left; discriminate].
    apply IH. exact H.
Qed.

Lemma patterns_mandatory : forallb mandatory (patterns I) = true.
Proof. reflexivity. Qed.

(** No pattern of the function matches the empty string, which is why
    the scan has no rule for empty matches. *)
Lemma no_empty_match r prev s n :
  In r (patterns I) -> matches I r prev s = Some n -> (1 <= n)%nat.
Proof.
  intros Hr. apply matches_mandatory.
  pose proof patterns_mandatory as H. rewrite forallb_forall in H. now apply H.
Qed.

(** X10: [self_check()] returns [True]: each of the forty-three cases of
    its table gives the expected output, whatever the tables of the
    interpreter. *)
Theorem self_check_passes :
  self_check I = Ok true /\ self_check_counts I = Ok (43, 0)%nat.
Proof. vm_compute. split; reflexivity. Qed.

End NoEmptyMatch.

(** ** The guarantees on the output (C1) and the SHA rule (C2) *)

Section Output.
Variable I : Interp.

(** C1, as amended: whatever the input, the text the function returns
    holds no asterisk, and no backtick, slash or underscore either. *)
Theorem output_has_no_markup (s out : text) :
  preprocess_abbreviations I s = Ok out ->
  forallb (fun c => negb (markup c)) out = true.
Proof.
  intros [t ->]%preprocess_ok_inv. apply cleanup_no_markup.
Qed.

(** C2, as amended: the rule for [sha256:] never changes the text.  Its
    hexadecimal digits form a word-bounded run of eight or more, which
    the rule before it has replaced by a dash; so the token comes out as
    [sha256:-]. *)
Theorem sha_rule_never_fires :
  (forall s : text,
      re_sub I sha_re (txt "SHA hash") (re_sub I hex8_re (txt "-") s)
      = re_sub I hex8_re (txt "-") s)
  /\ preprocess_abbreviations I (txt "sha256:abcdef0123")
     = Ok (txt "sha256:-").
Proof.
  split; [| vm_compute; reflexivity].
  intros s. apply re_sub_unmatched.
  apply unmatched_weaken with (r1 := hex8_re); [apply sha_needs_hex8 |].
  rewrite hex8_is_bounded_run.
  apply (bounded_pass_unmatched I hex_nocase 8);
    [apply hex_nocase_word | lia | reflexivity].
Qed.

End Output.

(** C1 fails on the input [0999]: it is returned as it is, a standalone
    run of four digits.  A token next to an underscore is not
    word-bounded for its rule, and is once the underscore is a space:
    [1.5_] comes out as [1.5 ], with a decimal point between digits,
    and a hexadecimal or base64-like token after [x_] stays. *)
Lemma four_digits_survive :
  preprocess_abbreviations ascii_interp (txt "0999") = Ok (txt "0999")
  /\ occurs ascii_interp (number_re ascii_interp) (txt "0999") = true
  /\ preprocess_abbreviations ascii_interp (txt "1.5_") = Ok (txt "1.5 ")
  /\ occurs ascii_interp (raw_decimal_point ascii_interp) (txt "1.5 ") = true
  /\ preprocess_abbreviations ascii_interp (txt "x_0x123456")
     = Ok (txt "x 0x123456")
  /\ occurs ascii_interp hex0x_re (txt "x 0x123456") = true
  /\ preprocess_abbreviations ascii_interp (txt "x_deadbeef")
     = Ok (txt "x deadbeef")
  /\ occurs ascii_interp hex8_re (txt "x deadbeef") = true
  /\ preprocess_abbreviations ascii_interp (txt "x_ZZZZZZZZZZZZZZZZZZZZ")
     = Ok (txt "x ZZZZZZZZZZZZZZZZZZZZ")
  /\ occurs ascii_interp base64_re (txt "x ZZZZZZZZZZZZZZZZZZZZ") = true.
Proof. vm_compute. repeat split. Qed.

(** The emphasis of [**Bold text**] is gone from the output. *)
Lemma output_has_no_markup_witness :
  forallb (fun c => negb (markup c)) (txt "Bold text") = true.
Proof.
  apply (output_has_no_markup ascii_interp (txt "**Bold text**")).
  vm_compute. reflexivity.
Defined.

(** C2 fails on the token [sha256:abcdef0123]: the SHA pattern matches
    it in the input, but the output is [sha256:-] and has no
    [SHA hash]. *)
Lemma sha_token_becomes_dash :
  matches ascii_interp sha_re None (txt "sha256:abcdef0123") = Some 17%nat
  /\ preprocess_abbreviations ascii_interp (txt "sha256:abcdef0123")
     = Ok (txt "sha256:-")
  /\ occurs ascii_interp (lit (txt "SHA hash")) (txt "sha256:-") = false.
Proof. vm_compute. repeat split. Qed.

(** ** Whole-word abbreviations (C5) *)

Section Abbreviations.
Variable I : Interp.

Lemma abbrev_match a prev s n :
  matches I (abbrev_pattern a) prev s = Some n ->
  boundary I prev s = true
  /\ firstn (List.length a) s = a
  /\ n = List.length a
  /\ boundary I (last_of prev (firstn (List.length a) s))
       (skipn (List.length a) s) = true.
Proof.
  unfold abbrev_pattern. cbn [matches].
  destruct (boundary I prev s); [| discriminate].
  rewrite lit_chrs, matches_chrs.
  destruct (chars_match _ s) eqn:Hm; [| discriminate].
  rewrite length_map. cbn [matches].
  destruct (boundary I _ _); [| discriminate].
  cbn [option_map]. intros [= <-].
  repeat split; [now apply chars_match_eqb | lia].
Qed.

Lemma abbreviations_word_ends :
  forallb (fun ae => word_ends I (fst ae)) abbreviations = true.
Proof. reflexivity. Qed.

Lemma opt_word_hd_firstn n s :
  opt_word I (hd_error (firstn n s)) = true -> opt_word I (hd_error s) = true.
Proof. destruct n, s; simpl; auto; discriminate. Qed.

Lemma last_of_word prev a :
  opt_word I (last_of None a) = true -> last_of prev a = last_of None a.
Proof. destruct a; [discriminate | reflexivity]. Qed.

(** C5: an abbreviation matches whole words only.  A match of a rule of
    the table is the abbreviation itself with no word character before
    or after it; so the rule for [MB] does not match at [MBps], which
    the rule for [MBps], the first of the table, expands. *)
Theorem abbreviations_match_whole_words :
  (forall a e prev s n,
      In (a, e) abbreviations ->
      matches I (abbrev_pattern a) prev s = Some n ->
      firstn n s = a
      /\ opt_word I prev = false
      /\ opt_word I (hd_error (skipn n s)) = false)
  /\ (forall prev rest,
         matches I (abbrev_pattern (txt "MB")) prev (txt "MBps" ++ rest) = None)
  /\ hd_error abbreviations = Some (txt "MBps", txt "megabytes per second")
  /\ preprocess_abbreviations I (txt "Transfer rate: 100 MBps")
     = Ok (txt "Transfer rate: 100 megabytes per second").
Proof.
  split; [| split; [| split; [reflexivity | vm_compute; reflexivity]]].
  - intros a e prev s n Hin Hm.
    apply abbrev_match in Hm as (Hb & Hf & -> & He).
    pose proof abbreviations_word_ends as Hw.
    rewrite forallb_forall in Hw. specialize (Hw _ Hin). cbn [fst] in Hw.
    apply andb_true_iff in Hw as [Hh Hl].
    split; [exact Hf |].
    rewrite Hf in He. rewrite (last_of_word prev a Hl) in He.
    unfold boundary in Hb, He. rewrite Hl in He.
    rewrite <- Hf in Hh. apply opt_word_hd_firstn in Hh. rewrite Hh in Hb.
    split.
    + now destruct (opt_word I prev).
    + now destruct (opt_word I (hd_error _)).
  - intros prev rest. unfold abbrev_pattern. cbn.
    destruct (boundary I prev _); reflexivity.
Qed.

End Abbreviations.

(** ** A decimal point with nothing before it (C10) *)

Section LeadingDot.
Variable I : Interp.

Lemma dot_not_digit : is_digit I dot = false.
Proof. reflexivity. Qed.


Lemma digit_not_dot c : is_digit I c = true -> (dot =? c) = false.
Proof.
  intros H. apply N.eqb_neq. intros <-. rewrite dot_not_digit in H. discriminate.
Qed.

Lemma decimal_re_unfold prev s :
  matches I (decimal_re I) prev s =
  if boundary I prev s
  then rep (is_digit I) 0 None
         (rep (N.eqb dot) 1 (Some 1%nat)
            (rep (is_digit I) 1 None (at_boundary I))) prev s
  else None.
Proof. reflexivity. Qed.











End LeadingDot.

(** ** Base64-like runs (C6) *)

Section Base64.
Variable I : Interp.








Lemma firstn_length_app (u v : text) n :
  firstn (List.length u + n) (u ++ v) = u ++ firstn n v.
Proof. induction u; simpl; [reflexivity | now f_equal]. Qed.


Lemma rep_le p k :
  (forall prev s n, k prev s = Some n -> (n <= List.length s)%nat) ->
  forall lo hi prev s n,
    rep p lo hi k prev s = Some n -> (n <= List.length s)%nat.
Proof.
  intros Hk lo hi prev s; revert lo hi prev.
  induction s as [| c s IH]; intros lo hi prev n.
  - cbn [rep]. destruct lo; [apply Hk | discriminate].
  - cbn [rep].
    assert (Hstop : match lo with O => k prev (c :: s) | S _ => None end = Some n
                    -> (n <= List.length (c :: s))%nat)
      by (destruct lo; [apply Hk | discriminate]).
    destruct (p c && may_take hi); [| exact Hstop].
    destruct (rep p (pred lo) (option_map pred hi) k (Some c) s) as [m |] eqn:E;
      [| exact Hstop].
    intros [= <-]. apply IH in E. simpl. lia.
Qed.

(** A match is no longer than the text. *)
Lemma matches_le r prev s n :
  matches I r prev s = Some n -> (n <= List.length s)%nat.
Proof.
  revert prev s n; induction r as [| [| p lo hi] r IH]; intros prev s n.
  - intros [= <-]. lia.
  - cbn [matches]. destruct (boundary I prev s); [apply IH | discriminate].
  - cbn [matches]. apply rep_le. exact IH.
Qed.

Lemma scan_hit r prev s n :
  matches I r prev s = Some (S n) ->
  scan_go I r O prev s
  = Hit (firstn (S n) s)
      :: scan_go I r O (last_of prev (firstn (S n) s)) (skipn (S n) s).
Proof.
  destruct s as [| c s].
  - intros H%matches_le. simpl in H. lia.
  - intros H. cbn [scan_go]. rewrite H, scan_go_skip.
    cbn [firstn skipn]. now rewrite last_of_cons.
Qed.

(** A successful unbounded repetition splits the match into characters
    of the class and what the continuation matched. *)
Lemma rep_split p k lo prev s n :
  rep p lo None k prev s = Some n ->
  exists m,
    (lo <= m <= n)%nat
    /\ forallb p (firstn m s) = true
    /\ k (last_of prev (firstn m s)) (skipn m s) = Some (n - m)%nat.
Proof.
  revert lo prev n; induction s as [| c s IH]; intros lo prev n.
  - cbn [rep]. destruct lo; [| discriminate].
    intros H. exists O. rewrite Nat.sub_0_r.
      split; [lia | split; [reflexivity | exact H]].
  - cbn [rep].
    assert (Hstop : match lo with O => k prev (c :: s) | S _ => None end = Some n ->
                    exists m,
                      (lo <= m <= n)%nat
                      /\ forallb p (firstn m (c :: s)) = true
                      /\ k (last_of prev (firstn m (c :: s))) (skipn m (c :: s))
                         = Some (n - m)%nat).
    { destruct lo; [| discriminate].
      intros H. exists O. rewrite Nat.sub_0_r.
      split; [lia | split; [reflexivity | exact H]]. }
    destruct (p c) eqn:Hc; cbn [andb may_take option_map]; [| exact Hstop].
    destruct (rep p (pred lo) None k (Some c) s) as [n' |] eqn:E; [| exact Hstop].
    intros [= <-]. apply IH in E as (m & Hm & Hf & Hk).
    exists (S m). cbn [firstn skipn forallb]. rewrite last_of_cons, Hc, Hf.
    split; [lia | split; [reflexivity | exact Hk]].
Qed.


Lemma at_boundary_zero pv t n : at_boundary I pv t = Some n -> n = O.
Proof.
  unfold at_boundary. destruct (boundary I pv t); [| discriminate].
  now intros [= <-].
Qed.





End Base64.


(** ** Decimals in words (C4) *)

Section Decimals.
Variable I : Interp.

Local Open Scope Z_scope.

Lemma int_digits_all acc s n :
  int_digits I acc s = Some n -> forallb (is_digit I) s = true.
Proof.
  revert acc; induction s as [| c s IH]; intros acc; [reflexivity |].
  cbn [int_digits forallb]. unfold is_digit.
  destruct (digit_value I c); [| discriminate]. apply IH.
Qed.

Lemma digits_no_dot s :
  forallb (is_digit I) s = true -> existsb (N.eqb dot) s = false.
Proof.
  induction s as [| c s IH]; [reflexivity |].
  cbn [forallb existsb]. intros [Hc Hs]%andb_true_iff.
  now rewrite (digit_not_dot I c Hc), IH.
Qed.

Lemma split_on_none s :
  existsb (N.eqb dot) s = false -> split_on dot s = [s].
Proof.
  induction s as [| c s IH]; [reflexivity |].
  cbn [existsb split_on]. intros [Hc Hs]%orb_false_iff.
  rewrite N.eqb_sym in Hc. now rewrite Hc, IH.
Qed.

Lemma split_on_dot a b :
  existsb (N.eqb dot) a = false ->
  existsb (N.eqb dot) b = false ->
  split_on dot (a ++ dot :: b) = [a; b].
Proof.
  intros Ha Hb. induction a as [| c a IH].
  - cbn [app split_on]. rewrite N.eqb_refl. now rewrite split_on_none.
  - cbn [existsb] in Ha. apply orb_false_iff in Ha as [Hc Ha].
    cbn [app split_on]. rewrite N.eqb_sym in Hc. now rewrite Hc, IH.
Qed.

Lemma has_dot a b : existsb (N.eqb dot) (a ++ dot :: b) = true.
Proof.
  rewrite existsb_app. cbn [existsb]. rewrite N.eqb_refl.
  now rewrite orb_true_r.
Qed.

Lemma short_not_too_many s :
  (List.length s <= 640)%nat -> too_many_digits I s = false.
Proof.
  intros H. unfold too_many_digits.
  assert ((640 <? N.of_nat (List.length s))%N = false) as ->
    by (apply N.ltb_ge; lia).
  reflexivity.
Qed.

Lemma py_int_ok s n :
  s <> [] -> int_digits I 0 s = Some n -> too_many_digits I s = false ->
  py_int I s = Ok n.
Proof.
  intros Hs Hn Ht. unfold py_int. destruct s; [congruence |].
  now rewrite Hn, Ht.
Qed.

(** C4: the decimal formatter, on a token of digits, a dot and digits,
    returns the words that the number of decimal digits selects; and
    [Value: 0.5] comes out as [Value: half].  (The integer part is
    converted by [int], which must accept its length.) *)
Theorem format_decimal_by_length :
  (forall a b n d,
      int_digits I 0 a = Some n ->
      int_digits I 0 b = Some d ->
      (1 <= List.length b)%nat ->
      too_many_digits I a = false ->
      format_decimal I (a ++ dot :: b) = Ok (decimal_words n d b))
  /\ preprocess_abbreviations I (txt "Value: 0.5") = Ok (txt "Value: half").
Proof.
  split; [| vm_compute; reflexivity].
  intros a b n d Ha Hb Hlen Hlim.
  pose proof (digits_no_dot _ (int_digits_all _ _ _ Ha)) as Hda.
  pose proof (digits_no_dot _ (int_digits_all _ _ _ Hb)) as Hdb.
  unfold format_decimal. rewrite has_dot, split_on_dot by assumption.
  assert (Hint : match a with [] => Ok 0 | _ :: _ => py_int I a end = Ok n).
  { destruct a as [| c a]; [now injection Ha as <- |].
    now apply py_int_ok. }
  rewrite Hint. cbn [bind]. unfold decimal_words.
  destruct b as [| b1 [| b2 [| b3 b]]]; [simpl in Hlen; lia | | |].
  - cbn [List.length Nat.eqb].
    rewrite (py_int_ok [b1] d) by
      (try discriminate; try assumption; apply short_not_too_many; simpl; lia).
    cbn [bind]. destruct (d =? 5); reflexivity.
  - cbn [List.length Nat.eqb].
    rewrite (py_int_ok [b1; b2] d) by
      (try discriminate; try assumption; apply short_not_too_many; simpl; lia).
    cbn [bind]. destruct (d =? 0); [reflexivity |].
    destruct (d <? 10); reflexivity.
  - cbn [List.length Nat.eqb]. reflexivity.
Qed.

End Decimals.

(** Two decimal digits below ten. *)
Lemma format_decimal_by_length_witness :
  format_decimal ascii_interp (txt "1.05") = Ok (txt "1 point zero 5").
Proof.
  exact (proj1 (format_decimal_by_length ascii_interp)
           (txt "1") (txt "05") 1%Z 5%Z eq_refl eq_refl
           ltac:(vm_compute; lia) eq_refl).
Defined.

(** ** Large numbers in words (C3, C9) *)

Section Numbers.
Variable I : Interp.

Local Open Scope Z_scope.

Lemma digit_value_range c d : digit_value I c = Some d -> 0 <= d <= 9.
Proof.
  unfold digit_value. destruct (c <? 128)%N; [| apply uni_decimal_range].
  unfold ascii_digit, in_range.
  destruct (48 <=? c)%N eqn:H1; [| discriminate].
  destruct (c <=? 57)%N eqn:H2; [| discriminate].
  apply N.leb_le in H1, H2. intros [= <-]. lia.
Qed.

Lemma int_digits_bounds s :
  forall acc n,
    0 <= acc -> int_digits I acc s = Some n ->
    acc * 10 ^ Z.of_nat (List.length s) <= n
    < (acc + 1) * 10 ^ Z.of_nat (List.length s).
Proof.
  induction s as [| c s IH]; intros acc n Hacc.
  - cbn [int_digits List.length]. intros [= <-]. simpl. lia.
  - cbn [int_digits]. destruct (digit_value I c) as [d |] eqn:Hd;
      [| discriminate].
    apply digit_value_range in Hd. intros H.
    apply IH in H; [| lia].
    replace (Z.of_nat (List.length (c :: s)))
      with (Z.succ (Z.of_nat (List.length s))) by (simpl List.length; lia).
    rewrite Z.pow_succ_r by lia.
    assert (0 < 10 ^ Z.of_nat (List.length s)) by (apply Z.pow_pos_nonneg; lia).
    nia.
Qed.

Lemma py_int_inv s n :
  py_int I s = Ok n ->
  s <> [] /\ int_digits I 0 s = Some n /\ too_many_digits I s = false.
Proof.
  unfold py_int. destruct s as [| c s]; [discriminate |].
  destruct (int_digits I 0 (c :: s)) as [m |]; [| discriminate].
  destruct (too_many_digits I (c :: s)); [discriminate |].
  intros [= <-]. repeat split. discriminate.
Qed.

Lemma py_int_bounds s n :
  py_int I s = Ok n -> 0 <= n < 10 ^ Z.of_nat (List.length s).
Proof.
  intros (_ & H & _)%py_int_inv. apply int_digits_bounds in H; lia.
Qed.

(** The division does not overflow while the quotient is below
    [2^1021]. *)
Lemma true_div_ok a b :
  0 < a -> 0 < b -> Z.log2 a - Z.log2 b <= 1020 ->
  exists x, true_div a b = Ok x.
Proof.
  intros Ha Hb Hl. unfold true_div.
  assert ((b =? 0) = false) as -> by (apply Z.eqb_neq; lia).
  assert ((a =? 0) = false) as -> by (apply Z.eqb_neq; lia).
  cbv zeta.
  set (l := Z.log2 a - Z.log2 b) in *.
  set (e := if below_pow2 a b l then l - 53 else l - 52).
  assert (He : e <= l - 52) by (unfold e; destruct (below_pow2 a b l); lia).
  destruct (scaled a b e =? 2 ^ 53).
  - assert ((1024 <? e + 1 + 53) = false) as -> by (apply Z.ltb_ge; lia).
    eauto.
  - assert ((1024 <? e + 53) = false) as -> by (apply Z.ltb_ge; lia).
    eauto.
Qed.

Lemma true_div_small n unit :
  0 < n < 10 ^ 300 -> 0 < unit -> exists x, true_div n unit = Ok x.
Proof.
  intros Hn Hu. apply true_div_ok; try lia.
  assert (Z.log2 n <= Z.log2 (10 ^ 300)) by (apply Z.log2_le_mono; lia).
  assert (Z.log2 (10 ^ 300) = 996) by (vm_compute; reflexivity).
  pose proof (Z.log2_nonneg unit). lia.
Qed.

Lemma one_decimal_ok n unit x :
  true_div n unit = Ok x -> format_1f x = one_decimal n unit.
Proof. unfold one_decimal. now intros ->. Qed.

Lemma exact_thousands_all :
  forallb exact_thousands (map Z.of_nat (seq 100 900)) = true.
Proof. vm_compute. reflexivity. Qed.

Lemma thousands_exact n :
  100000 <= n < 1000000 -> n mod 1000 = 0 ->
  exists x, true_div n 1000 = Ok x
            /\ float_trunc x = n / 1000 /\ float_ltb x 1000 = true.
Proof.
  intros Hn Hm.
  assert (Hk : n = 1000 * (n / 1000))
    by (pose proof (Z.div_mod n 1000); lia).
  set (k := n / 1000) in *.
  assert (Hin : In k (map Z.of_nat (seq 100 900))).
  { replace k with (Z.of_nat (Z.to_nat k)) by lia.
    apply in_map, in_seq. lia. }
  pose proof exact_thousands_all as H. rewrite forallb_forall in H.
  specialize (H k Hin). unfold exact_thousands in H. rewrite <- Hk in H.
  destruct (true_div n 1000) as [x |]; [| discriminate].
  apply andb_true_iff in H as [H1%Z.eqb_eq H2]. eauto.
Qed.

Lemma format_number_unfold ds n :
  py_int I ds = Ok n ->
  format_number I ds =
  if 1000000000 <=? n then
    if n mod 1000000000 =? 0
    then Ok (py_str (n / 1000000000) ++ txt " billion")
    else x <- true_div n 1000000000 ;; Ok (format_1f x ++ txt " billion")
  else if 1000000 <=? n then
    if n mod 1000000 =? 0
    then Ok (py_str (n / 1000000) ++ txt " million")
    else x <- true_div n 1000000 ;; Ok (format_1f x ++ txt " million")
  else if 100000 <=? n then
    thousands <- true_div n 1000 ;;
    millions <- true_div n 1000000 ;;
    if (n mod 1000 =? 0) && float_ltb thousands 1000
    then Ok (py_str (float_trunc thousands) ++ txt " thousand")
    else if n mod 100000 =? 0
    then Ok (py_str (n / 100000) ++ txt " hundred thousand")
    else Ok (format_1f millions ++ txt " million")
  else if 1000 <=? n then
    if n mod 1000 =? 0
    then Ok (py_str (n / 1000) ++ txt " thousand")
    else x <- true_div n 1000 ;; Ok (format_1f x ++ txt " thousand")
  else Ok ds.
Proof. unfold format_number. now intros ->. Qed.

(** Between a hundred thousand and a million: the branch taken. *)
Lemma format_number_six_digits ds n :
  py_int I ds = Ok n -> 100000 <= n < 1000000 ->
  format_number I ds =
  if n mod 1000 =? 0
  then Ok (py_str (n / 1000) ++ txt " thousand")
  else millions <- true_div n 1000000 ;;
       Ok (format_1f millions ++ txt " million").
Proof.
  intros Hint Hn. rewrite (format_number_unfold ds n Hint).
  assert ((1000000000 <=? n) = false) as -> by (apply Z.leb_gt; lia).
  assert ((1000000 <=? n) = false) as -> by (apply Z.leb_gt; lia).
  assert ((100000 <=? n) = true) as -> by (apply Z.leb_le; lia).
  destruct (Z.eqb_spec (n mod 1000) 0) as [Hm | Hm].
  - destruct (thousands_exact n Hn Hm) as (x & -> & Ht & Hl).
    destruct (true_div_small n 1000000) as [y ->]; [lia | lia |].
    cbn [bind andb]. now rewrite Hl, Ht.
  - destruct (true_div_small n 1000) as [x ->]; [lia | lia |].
    cbn [bind andb].
    assert ((n mod 100000 =? 0) = false) as ->.
    { apply Z.eqb_neq. intros H. apply Hm.
      pose proof (Z.div_mod n 100000). pose proof (Z.div_mod n 1000).
      assert (n = 1000 * (100 * (n / 100000))) by lia.
      rewrite H2, Z.mul_comm. apply Z_mod_mult. }
    destruct (true_div n 1000000); reflexivity.
Qed.

(** *** One decimal is a nearest tenth *)

Lemma round_half_even_near n d :
  0 < d -> 2 * Z.abs (round_half_even n d * d - n) <= d.
Proof.
  intros Hd. unfold round_half_even.
  pose proof (Z.div_mod n d ltac:(lia)) as Hn.
  pose proof (Z.mod_pos_bound n d Hd) as Hr.
  destruct (Z.compare_spec (2 * (n mod d)) d) as [H | H | H].
  - destruct (Z.even (n / d)); nia.
  - nia.
  - nia.
Qed.

Lemma format_1f_tenths x :
  format_1f x = py_str (tenths x / 10) ++ dot :: py_str (tenths x mod 10).
Proof. reflexivity. Qed.



End Numbers.

Section NumberTheorems.
Variable I : Interp.

Local Open Scope Z_scope.

Lemma multiple_of_thousand n : n mod 100000 = 0 -> n mod 1000 = 0.
Proof.
  intros H. pose proof (Z.div_mod n 100000).
  assert (n = 100 * (n / 100000) * 1000) as -> by lia.
  apply Z_mod_mult.
Qed.

Lemma short_below_pow s n :
  py_int I s = Ok n -> (List.length s <= 300)%nat -> 0 <= n < 10 ^ 300.
Proof.
  intros H%py_int_bounds Hlen.
  assert (10 ^ Z.of_nat (List.length s) <= 10 ^ 300)
    by (apply Z.pow_le_mono_r; lia).
  lia.
Qed.

Lemma one_decimal_branch n unit (suffix : text) :
  0 < n < 10 ^ 300 -> 0 < unit ->
  (x <- true_div n unit ;; Ok (format_1f x ++ suffix))
  = Ok (one_decimal n unit ++ suffix).
Proof.
  intros Hn Hu. destruct (true_div_small n unit Hn Hu) as [x Hx].
  rewrite Hx. cbn [bind]. now rewrite (one_decimal_ok _ _ _ Hx).
Qed.


(** *** No [hundred thousand] *)

Lemma uint_text_digits d : forallb ascii_digit (uint_text d) = true.
Proof. induction d; simpl; auto. Qed.





Lemma without_skipn o n s : without o s = true -> without o (skipn n s) = true.
Proof.
  unfold without. rewrite !forallb_forall. intros H c Hc.
  apply H. rewrite <- (firstn_skipn n s). apply in_or_app. now right.
Qed.






(** C7: a standalone number of 320 digits that is no multiple of a
    billion makes the function raise [OverflowError]: the quotient by a
    billion is beyond the largest float. *)
Theorem long_number_raises :
  preprocess_abbreviations I (repeat (ch "1") 320) = Raise OverflowError.
Proof. vm_compute. reflexivity. Qed.

End NumberTheorems.






(** With the default limit of 4300 digits, [int] refuses a longer run. *)
Lemma very_long_number_raises :
  preprocess_abbreviations ascii_interp (repeat (ch "1") 4301) = Raise ValueError.
Proof. vm_compute. reflexivity. Qed.
(** * Further properties *)

(** ** Errors of the two formatters *)

Section FormatterErrors.
Variable I : Interp.

Local Open Scope Z_scope.

Lemma without_digits o s :
  is_digit I o = false -> forallb (is_digit I) s = true -> without o s = true.
Proof.
  intros Ho H. unfold without. rewrite forallb_forall in *.
  intros c Hc. specialize (H c Hc).
  destruct (N.eqb_spec c o) as [-> |]; [congruence | reflexivity].
Qed.

Lemma without_ascii_digits o s :
  ascii_digit o = false -> forallb ascii_digit s = true -> without o s = true.
Proof.
  intros Ho H. unfold without. rewrite forallb_forall in *.
  intros c Hc. specialize (H c Hc).
  destruct (N.eqb_spec c o) as [-> |]; [congruence | reflexivity].
Qed.

Lemma py_str_without_dot n : without dot (py_str n) = true.
Proof. apply without_ascii_digits; [reflexivity | apply uint_text_digits]. Qed.

Lemma too_many_nonempty s : too_many_digits I s = true -> s <> [].
Proof. intros H ->. discriminate. Qed.

Lemma py_int_too_many s : too_many_digits I s = true -> py_int I s = Raise ValueError.
Proof.
  intros H. unfold py_int. destruct s as [| c s]; [reflexivity |].
  destruct (int_digits I 0 (c :: s)); [now rewrite H | reflexivity].
Qed.

(** The decimal formatter on a token: the words, or [ValueError] for an
    integer part that [int] refuses. *)
Lemma format_decimal_token a b n d :
  int_digits I 0 a = Some n ->
  int_digits I 0 b = Some d ->
  (1 <= List.length b)%nat ->
  format_decimal I (a ++ dot :: b) =
  if too_many_digits I a then Raise ValueError else Ok (decimal_words n d b).
Proof.
  intros Ha Hb Hlen.
  pose proof (digits_no_dot I _ (int_digits_all I _ _ _ Ha)) as Hda.
  pose proof (digits_no_dot I _ (int_digits_all I _ _ _ Hb)) as Hdb.
  unfold format_decimal. rewrite has_dot, split_on_dot by assumption.
  destruct (too_many_digits I a) eqn:Hlim.
  - pose proof (too_many_nonempty a Hlim) as Hne.
    destruct a as [| c a]; [congruence |].
    now rewrite (py_int_too_many _ Hlim).
  - assert (Hint : match a with [] => Ok 0 | _ :: _ => py_int I a end = Ok n).
    { destruct a as [| c a]; [now injection Ha as <- |].
      now apply py_int_ok. }
    rewrite Hint. cbn [bind]. unfold decimal_words.
    destruct b as [| b1 [| b2 [| b3 b]]]; [simpl in Hlen; lia | | |].
    + cbn [List.length Nat.eqb].
      rewrite (py_int_ok I [b1] d) by
        (try discriminate; try assumption; apply short_not_too_many; simpl; lia).
      cbn [bind]. destruct (d =? 5); reflexivity.
    + cbn [List.length Nat.eqb].
      rewrite (py_int_ok I [b1; b2] d) by
        (try discriminate; try assumption; apply short_not_too_many; simpl; lia).
      cbn [bind]. destruct (d =? 0); [reflexivity |].
      destruct (d <? 10); reflexivity.
    + cbn [List.length Nat.eqb]. reflexivity.
Qed.

Lemma decimal_words_without_dot n d b :
  forallb (is_digit I) b = true -> without dot (decimal_words n d b) = true.
Proof.
  intros Hb. pose proof (without_digits dot b eq_refl Hb) as Hwb.
  unfold decimal_words.
  repeat match goal with
         | |- context [match ?x with _ => _ end] => destruct x
         end;
    rewrite ?without_app, ?py_str_without_dot, ?Hwb; reflexivity.
Qed.

(** X4: the decimal formatter raises on a token exactly when [int] refuses
    the length of its integer part, and then [ValueError]; what it
    returns otherwise has no dot. *)
Theorem format_decimal_errors a b n d :
  int_digits I 0 a = Some n ->
  int_digits I 0 b = Some d ->
  (1 <= List.length b)%nat ->
  (too_many_digits I a = true ->
   format_decimal I (a ++ dot :: b) = Raise ValueError)
  /\ (too_many_digits I a = false ->
      exists out,
        format_decimal I (a ++ dot :: b) = Ok out /\ without dot out = true).
Proof.
  intros Ha Hb Hlen.
  rewrite (format_decimal_token a b n d Ha Hb Hlen).
  split; intros ->; [reflexivity |].
  eexists. split; [reflexivity |].
  apply decimal_words_without_dot. eapply int_digits_all, Hb.
Qed.

(** *** Overflow *)

Lemma true_div_overflow a b :
  0 < b -> 2 ^ 1024 * b <= a -> true_div a b = Raise OverflowError.
Proof.
  intros Hb Ha. unfold true_div.
  assert (0 < 2 ^ 1024) by (apply Z.pow_pos_nonneg; lia).
  assert (0 < a) by nia.
  assert ((b =? 0) = false) as -> by (apply Z.eqb_neq; lia).
  assert ((a =? 0) = false) as -> by (apply Z.eqb_neq; lia).
  cbv zeta.
  assert (Hl : 1024 <= Z.log2 a - Z.log2 b).
  { assert (Z.log2 (b * 2 ^ 1024) <= Z.log2 a) by (apply Z.log2_le_mono; lia).
    rewrite Z.log2_mul_pow2 in * by lia. lia. }
  set (l := Z.log2 a - Z.log2 b) in *.
  set (e := if below_pow2 a b l then l - 53 else l - 52).
  assert (He : 972 <= e).
  { unfold e. destruct (below_pow2 a b l) eqn:Hbp; [| lia].
    destruct (Z.eq_dec l 1024) as [El | El]; [| lia].
    exfalso. unfold below_pow2 in Hbp. rewrite El in Hbp.
    cbn [Z.leb Z.compare] in Hbp. apply Z.ltb_lt in Hbp. lia. }
  destruct (scaled a b e =? 2 ^ 53).
  - assert ((1024 <? e + 1 + 53) = true) as -> by (apply Z.ltb_lt; lia).
    reflexivity.
  - assert ((1024 <? e + 53) = true) as -> by (apply Z.ltb_lt; lia).
    reflexivity.
Qed.

(** X3: the number formatter raises [OverflowError] on every token that
    [int] accepts of a value of [2^1024] billions or more that is no
    multiple of a billion; and [ValueError] on every token [int]
    refuses. *)
Theorem format_number_errors ds :
  (forall n,
      py_int I ds = Ok n ->
      2 ^ 1024 * 1000000000 <= n -> n mod 1000000000 <> 0 ->
      format_number I ds = Raise OverflowError)
  /\ (too_many_digits I ds = true -> format_number I ds = Raise ValueError).
Proof.
  split.
  - intros n Hint Hn Hm. rewrite (format_number_unfold I ds n Hint).
    assert (0 < 2 ^ 1024) by (apply Z.pow_pos_nonneg; lia).
    assert ((1000000000 <=? n) = true) as -> by (apply Z.leb_le; nia).
    assert ((n mod 1000000000 =? 0) = false) as -> by (now apply Z.eqb_neq).
    now rewrite true_div_overflow by lia.
  - intros H. unfold format_number. now rewrite (py_int_too_many _ H).
Qed.

End FormatterErrors.

(** ** The rules for long hexadecimal values *)

Section HexRules.
Variable I : Interp.

Lemma after_run_cons p c s :
  after_run I p (c :: s) = if p c then after_run I p s else is_word I c.
Proof. unfold after_run. cbn [run]. destruct (p c); reflexivity. Qed.

Lemma bounded_hit_after p lo prev s :
  bounded_hit I p lo prev s
  = (lo <=? run p s)%nat && negb (opt_word I prev) && negb (after_run I p s).
Proof. reflexivity. Qed.

Lemma hex_lower_word c : hex_lower c = true -> is_word I c = true.
Proof. intros H. now apply hex_nocase_word, hex_lower_nocase. Qed.

Lemma hex12_is_bounded_run : hex12_re = bounded_run hex_lower 12.
Proof. reflexivity. Qed.

Lemma scan_cons r prev c s :
  scan_go I r O prev (c :: s) =
  match matches I r prev (c :: s) with
  | Some (S n) =>
      Hit (firstn (S n) (c :: s))
        :: scan_go I r O (last_of prev (firstn (S n) (c :: s)))
                   (skipn (S n) (c :: s))
  | _ => Keep c :: scan_go I r O (Some c) s
  end.
Proof.
  destruct (matches I r prev (c :: s)) as [[| n] |] eqn:E.
  - cbn [scan_go]. now rewrite E.
  - now apply scan_hit.
  - cbn [scan_go]. now rewrite E.
Qed.

(** A lower-case run at the start of the output of a pass that writes
    [container ID], with no word character after it, is such a run of
    the input. *)
Lemma run_through_pass r n :
  forall s prev,
    (n <= run hex_lower (render container_id (scan_go I r O prev s)))%nat ->
    after_run I hex_lower (render container_id (scan_go I r O prev s)) = false ->
    (n <= run hex_nocase s)%nat /\ after_run I hex_nocase s = false.
Proof.
  intros s; revert n; induction s as [| c s IH]; intros n prev.
  - cbn. intros H _. split; [exact H | reflexivity].
  - rewrite scan_cons.
    destruct (matches I r prev (c :: s)) as [[| k] |].
    2:{ rewrite render_hit_cons. intros _ H. discriminate H. }
    all: rewrite render_keep_cons, !after_run_cons; cbn [run];
      destruct (hex_lower c) eqn:Hc.
    all: try (rewrite (hex_lower_nocase c Hc); intros Hn Ha;
              destruct (IH (pred n) (Some c)) as [H1 H2];
              [lia | exact Ha | split; [lia | exact H2]]).
    all: intros Hn Ha; assert (n = O) as -> by lia;
      destruct (hex_nocase c) eqn:Hn';
      [apply (hex_nocase_word I) in Hn'; congruence
      | split; [lia | exact Ha]].
Qed.

Lemma bounded_hit_short p lo prev s :
  (run p s < lo)%nat -> bounded_hit I p lo prev s = false.
Proof.
  intros H. unfold bounded_hit.
  assert ((lo <=? run p s)%nat = false) as -> by (apply Nat.leb_gt; lia).
  reflexivity.
Qed.

Lemma unmatched_container_id prev out :
  unmatched I hex12_re (Some 68) out = true ->
  unmatched I hex12_re prev (container_id ++ out) = true.
Proof.
  intros H. rewrite hex12_is_bounded_run in *.
  unfold container_id. cbn [txt list_ascii_of_string map app].
  repeat (cbn [unmatched];
          rewrite bounded_run_matches by (try apply hex_lower_word; lia);
          rewrite bounded_hit_short by (cbn; lia)).
  exact H.
Qed.

(** After the bare-hex rule, and whatever rule writes [container ID]
    in between, the rule for runs of twelve lower-case hexadecimal
    digits finds nothing. *)
Lemma hex12_unmatched_after r m :
  forall s prev pv,
    (List.length s <= m)%nat ->
    unmatched I hex8_re prev s = true ->
    pv = prev \/ opt_word I pv = true ->
    unmatched I hex12_re pv (render container_id (scan_go I r O prev s)) = true.
Proof.
  induction m as [| m IH]; intros s prev pv Hm Hu HJ.
  - destruct s; [reflexivity | simpl in Hm; lia].
  - destruct s as [| c s]; [reflexivity |].
    pose proof (scan_cons r prev c s) as Hs.
    destruct (matches I r prev (c :: s)) as [[| k] |] eqn:E.
    2:{ rewrite Hs, render_hit_cons. apply unmatched_container_id.
        apply IH.
        - rewrite length_skipn. simpl in Hm |- *. lia.
        - rewrite <- (firstn_skipn (S k) (c :: s)) in Hu at 1.
          now apply unmatched_app in Hu.
        - now right. }
    all: assert (Hhead : bounded_hit I hex_lower 12 pv
                           (render container_id (scan_go I r O prev (c :: s)))
                         = false).
    all: try (destruct (bounded_hit I hex_lower 12 pv _) eqn:Hh; [| reflexivity];
              exfalso; rewrite bounded_hit_after in Hh;
              apply andb_true_iff in Hh as [[H1%Nat.leb_le H2%negb_true_iff]%andb_true_iff
                                              H3%negb_true_iff];
              destruct HJ as [-> | HJ]; [| congruence];
              destruct (run_through_pass r 12 _ _ H1 H3) as [G1 G2];
              cbn [unmatched] in Hu; rewrite hex8_is_bounded_run in Hu;
              rewrite bounded_run_matches in Hu by (try apply hex_nocase_word; lia);
              rewrite bounded_hit_after, H2, G2 in Hu;
              assert ((8 <=? run hex_nocase (c :: s))%nat = true) as Hr
                by (apply Nat.leb_le; lia);
              rewrite Hr in Hu; cbn [andb negb] in Hu;
              destruct (run hex_nocase (c :: s)); [lia | discriminate]).
    all: rewrite Hs in Hhead |- *; rewrite render_keep_cons in Hhead |- *;
      cbn [unmatched]; rewrite hex12_is_bounded_run;
      rewrite bounded_run_matches, Hhead by (try apply hex_lower_word; lia);
      rewrite <- hex12_is_bounded_run;
      apply IH; [simpl in Hm; lia | | now left];
      cbn [unmatched] in Hu;
      destruct (matches I hex8_re prev (c :: s)) as [[| n] |];
      try discriminate; exact Hu.
Qed.

Lemma hex8_pass_unmatched s :
  unmatched I hex8_re None (re_sub I hex8_re (txt "-") s) = true.
Proof.
  rewrite hex8_is_bounded_run.
  apply (bounded_pass_unmatched I hex_nocase 8);
    [apply hex_nocase_word | lia | reflexivity].
Qed.

Lemma sha_pass_identity s :
  re_sub I sha_re (txt "SHA hash") (re_sub I hex8_re (txt "-") s)
  = re_sub I hex8_re (txt "-") s.
Proof.
  apply re_sub_unmatched.
  apply unmatched_weaken with (r1 := hex8_re); [apply sha_needs_hex8 |].
  apply hex8_pass_unmatched.
Qed.

Lemma hex12_pass_identity s :
  re_sub I hex12_re (txt "long ID")
    (re_sub I crio_re (txt "container ID") (re_sub I hex8_re (txt "-") s))
  = re_sub I crio_re (txt "container ID") (re_sub I hex8_re (txt "-") s).
Proof.
  apply re_sub_unmatched. rewrite re_sub_render. unfold scan.
  apply (hex12_unmatched_after crio_re (List.length (re_sub I hex8_re (txt "-") s)));
    [lia | apply hex8_pass_unmatched | now left].
Qed.

(** X5: right after the bare-hex rule the text has no word-bounded run of
    eight or more hexadecimal digits, so the rule applied again changes
    nothing. *)
Theorem bare_hex_rule_clears (s : text) :
  occurs I hex8_re (re_sub I hex8_re (txt "-") s) = false
  /\ re_sub I hex8_re (txt "-") (re_sub I hex8_re (txt "-") s)
     = re_sub I hex8_re (txt "-") s.
Proof.
  pose proof (hex8_pass_unmatched s) as H. split.
  - unfold occurs. now rewrite H.
  - now apply re_sub_unmatched.
Qed.

(** X6: the rule for runs of twelve lower-case hexadecimal digits never
    changes the text: longer runs were replaced by the bare-hex rule.
    With the rule for [sha256:], which never matches either, it can be
    left out of the redactions. *)
Theorem long_id_rule_never_fires (s : text) :
  re_sub I hex12_re (txt "long ID")
    (re_sub I crio_re (txt "container ID")
       (re_sub I sha_re (txt "SHA hash") (re_sub I hex8_re (txt "-") s)))
  = re_sub I crio_re (txt "container ID")
      (re_sub I sha_re (txt "SHA hash") (re_sub I hex8_re (txt "-") s))
  /\ redact I s = redact_live I s.
Proof.
  split.
  - rewrite sha_pass_identity. apply hex12_pass_identity.
  - unfold redact, redact_live. cbv zeta.
    now rewrite sha_pass_identity, hex12_pass_identity.
Qed.

End HexRules.

(** ** [str] and [int] *)

Section StrInt.
Variable I : Interp.

Local Open Scope Z_scope.

Lemma int_digits_cons acc c d s :
  digit_value I c = Some d ->
  int_digits I acc (c :: s) = int_digits I (10 * acc + d) s.
Proof. intros H. cbn [int_digits]. now rewrite H. Qed.

Lemma int_digits_uint u acc :
  int_digits I acc (uint_text u) = Some (uint_value acc u).
Proof.
  revert acc; induction u; intros acc; cbn [uint_text uint_value];
    [reflexivity | ..];
    erewrite int_digits_cons by reflexivity;
    rewrite IHu; do 2 f_equal; lia.
Qed.

Lemma uint_value_revapp u w :
  Z.of_N (DecimalPos.Unsigned.of_lu (Decimal.revapp u w))
  = uint_value (Z.of_N (DecimalPos.Unsigned.of_lu w)) u.
Proof.
  revert w; induction u; intros w; cbn [Decimal.revapp uint_value];
    [reflexivity | ..];
    rewrite IHu; f_equal; cbn [DecimalPos.Unsigned.of_lu]; lia.
Qed.

Lemma uint_value_of_uint u : Z.of_N (N.of_uint u) = uint_value 0 u.
Proof.
  unfold N.of_uint. rewrite DecimalPos.Unsigned.of_uint_alt. unfold Decimal.rev.
  now rewrite uint_value_revapp.
Qed.

(** [int(str(n))] is [n]. *)
Lemma int_digits_py_str n : 0 <= n -> int_digits I 0 (py_str n) = Some n.
Proof.
  intros Hn. unfold py_str.
  rewrite int_digits_uint, <- uint_value_of_uint, DecimalN.Unsigned.of_to.
  f_equal. lia.
Qed.

Lemma to_uint_head n :
  N.to_uint n = Decimal.D0 Decimal.Nil
  \/ match N.to_uint n with
     | Decimal.Nil | Decimal.D0 _ => False
     | _ => True
     end.
Proof.
  assert (Hu : N.to_uint n = Decimal.unorm (N.to_uint n)).
  { rewrite <- (DecimalN.Unsigned.of_to n) at 1.
    apply DecimalN.Unsigned.to_of. }
  destruct (N.to_uint n) as [| u | u | u | u | u | u | u | u | u | u] eqn:E;
    try (right; exact Logic.I).
  - exfalso. symmetry in Hu. now apply DecimalFacts.unorm_nonnil in Hu.
  - left. rewrite DecimalFacts.unorm_D0 in Hu.
    destruct (Decimal.nzhead u) eqn:Hz;
      [apply (proj2 (DecimalFacts.unorm_0 u)) in Hz; rewrite Hz in Hu; exact Hu
      | ..];
      rewrite DecimalFacts.unorm_nzhead in Hu by congruence; rewrite Hz in Hu;
      try discriminate.
    symmetry in Hu. rewrite <- Hz in Hu.
    now apply DecimalFacts.nzhead_nonzero in Hu.
Qed.

(** A number below [10^d] is written with [d] digits at most. *)
Lemma py_str_length n d :
  0 <= n < 10 ^ Z.of_nat d -> (1 <= d)%nat ->
  (List.length (py_str n) <= d)%nat.
Proof.
  intros Hn Hd.
  pose proof (int_digits_py_str n ltac:(lia)) as Hv.
  unfold py_str in *.
  destruct (to_uint_head (Z.to_N n)) as [-> | Hh]; [simpl; lia |].
  destruct (N.to_uint (Z.to_N n)) as [| u | u | u | u | u | u | u | u | u | u];
    try contradiction;
    cbn [uint_text] in Hv |- *;
    erewrite int_digits_cons in Hv by reflexivity;
    apply int_digits_bounds in Hv; try lia;
    (assert (Hlt : 10 ^ Z.of_nat (List.length (uint_text u)) < 10 ^ Z.of_nat d)
      by lia);
    apply Z.pow_lt_mono_r_iff in Hlt; simpl; lia.
Qed.

End StrInt.

(** ** The size of one decimal *)

Section FloatBound.

Local Open Scope Z_scope.

Lemma round_half_even_nonneg n d : 0 <= n -> 0 < d -> 0 <= round_half_even n d.
Proof.
  intros Hn Hd. unfold round_half_even.
  assert (0 <= n / d) by (apply Z.div_pos; lia).
  destruct (2 * (n mod d) ?= d); [destruct (Z.even (n / d)) | |]; lia.
Qed.

Lemma tenths_arith m n unit P t :
  0 < unit -> 2 <= P -> 0 <= n ->
  2 * m * unit <= 2 * n * P + unit -> 2 * t * P <= 20 * m + P ->
  t * unit <= 20 * n + 3 * unit.
Proof.
  intros Hu HP Hn Hm Ht.
  assert (H1 : 2 * t * P * unit <= (20 * m + P) * unit)
    by (apply Z.mul_le_mono_nonneg_r; lia).
  assert (H2 : 10 * unit <= 5 * unit * P) by nia.
  assert (H3 : (t * unit) * (2 * P) <= (20 * n + 3 * unit) * (2 * P)) by nia.
  apply Z.mul_le_mono_pos_r in H3; lia.
Qed.

(** The tenths of a quotient are at most twice ten times the quotient,
    and three. *)
Lemma tenths_bound n unit x :
  0 < n -> 0 < unit -> true_div n unit = Ok x ->
  0 <= tenths x /\ tenths x * unit <= 20 * n + 3 * unit.
Proof.
  intros Hn Hu. unfold true_div.
  assert ((unit =? 0) = false) as -> by (apply Z.eqb_neq; lia).
  assert ((n =? 0) = false) as -> by (apply Z.eqb_neq; lia).
  cbv zeta.
  set (e0 := if below_pow2 n unit (Z.log2 n - Z.log2 unit)
             then Z.log2 n - Z.log2 unit - 53
             else Z.log2 n - Z.log2 unit - 52).
  clearbody e0.
  assert (Hm0 : 0 <= scaled n unit e0).
  { unfold scaled. destruct (0 <=? e0) eqn:He.
    - apply round_half_even_nonneg; [lia |].
      apply Z.mul_pos_pos; [lia | apply Z.pow_pos_nonneg; lia].
    - apply round_half_even_nonneg; [| lia].
      apply Z.mul_nonneg_nonneg; [lia | apply Z.pow_nonneg; lia]. }
  assert (Hnear :
            if 0 <=? e0
            then 2 * Z.abs (scaled n unit e0 * (unit * 2 ^ e0) - n) <= unit * 2 ^ e0
            else 2 * Z.abs (scaled n unit e0 * unit - n * 2 ^ (- e0)) <= unit).
  { unfold scaled. destruct (0 <=? e0) eqn:He.
    - apply round_half_even_near.
      apply Z.mul_pos_pos; [lia | apply Z.pow_pos_nonneg; lia].
    - now apply round_half_even_near. }
  set (m0 := scaled n unit e0) in *. clearbody m0.
  assert (H53 : 2 ^ 53 = 2 * 2 ^ 52) by reflexivity.
  assert (H52 : 0 < 2 ^ 52) by reflexivity.
  destruct (Z.eqb_spec m0 (2 ^ 53)) as [Hr | Hr].
  - (* renormalised *)
    destruct (1024 <? e0 + 1 + 53); [discriminate |].
    intros [= <-]. unfold tenths. cbn [fman fexp].
    destruct (Z.leb_spec 0 e0) as [He | He].
    + assert ((0 <=? e0 + 1) = true) as -> by (apply Z.leb_le; lia).
      rewrite Z.pow_add_r by lia. change (2 ^ 1) with 2.
      assert (0 < 2 ^ e0) by (apply Z.pow_pos_nonneg; lia).
      set (P := 2 ^ e0) in *. split; [nia |]. rewrite Hr, H53 in Hnear. nia.
    + destruct (Z.eq_dec e0 (-1)) as [-> | He1].
      * cbn [Z.leb Z.compare Z.add Z.opp Z.pos_sub] in *.
        change (2 ^ 1) with 2 in Hnear. change (2 ^ 0) with 1.
        rewrite Hr, H53 in Hnear. split; [lia |]. lia.
      * assert ((0 <=? e0 + 1) = false) as -> by (apply Z.leb_gt; lia).
        assert (HP : 0 < 2 ^ (- (e0 + 1))) by (apply Z.pow_pos_nonneg; lia).
        pose proof (round_half_even_near (10 * 2 ^ 52) _ HP) as Ht.
        pose proof (round_half_even_nonneg (10 * 2 ^ 52) _ ltac:(lia) HP) as Ht0.
        replace (- e0) with (- (e0 + 1) + 1) in Hnear by lia.
        rewrite Z.pow_add_r in Hnear by lia. change (2 ^ 1) with 2 in Hnear.
        assert (H2 : 2 <= 2 ^ (- (e0 + 1))).
        { change 2 with (2 ^ 1) at 1. apply Z.pow_le_mono_r; lia. }
        set (P := 2 ^ (- (e0 + 1))) in *.
        set (t := round_half_even (10 * 2 ^ 52) P) in *.
        rewrite Hr, H53 in Hnear. split; [exact Ht0 |].
        apply (tenths_arith (2 ^ 52) n unit P t); lia.
  - destruct (1024 <? e0 + 53); [discriminate |].
    intros [= <-]. unfold tenths. cbn [fman fexp].
    destruct (Z.leb_spec 0 e0) as [He | He].
    + assert (0 < 2 ^ e0) by (apply Z.pow_pos_nonneg; lia).
      set (P := 2 ^ e0) in *. split; [nia |].
      destruct (Z.eq_dec m0 0) as [-> | Hz]; [nia |]. nia.
    + assert (HP : 0 < 2 ^ (- e0)) by (apply Z.pow_pos_nonneg; lia).
      pose proof (round_half_even_near (10 * m0) _ HP) as Ht.
      pose proof (round_half_even_nonneg (10 * m0) _ ltac:(lia) HP) as Ht0.
      assert (H2 : 2 <= 2 ^ (- e0)).
      { change 2 with (2 ^ 1) at 1. apply Z.pow_le_mono_r; lia. }
      set (P := 2 ^ (- e0)) in *.
      set (t := round_half_even (10 * m0) P) in *.
      split; [exact Ht0 |].
      apply (tenths_arith m0 n unit P t); lia.
Qed.

End FloatBound.

(** ** Texts with few digits *)

Section Safety.
Variable I : Interp.

Lemma digits_app u v : digits I (u ++ v) = (digits I u + digits I v)%nat.
Proof. unfold digits. now rewrite filter_app, length_app. Qed.

Lemma digits_cons c s :
  digits I (c :: s) = ((if is_digit I c then 1 else 0) + digits I s)%nat.
Proof. unfold digits. cbn [filter]. destruct (is_digit I c); reflexivity. Qed.

Lemma digits_le_length s : (digits I s <= List.length s)%nat.
Proof. apply filter_length_le. Qed.

Lemma digits_all s : forallb (is_digit I) s = true -> digits I s = List.length s.
Proof.
  induction s as [| c s IH]; [reflexivity |].
  cbn [forallb]. intros [Hc Hs]%andb_true_iff.
  rewrite digits_cons, Hc, IH by exact Hs. reflexivity.
Qed.

Lemma digits_firstn n s : (digits I (firstn n s) <= digits I s)%nat.
Proof.
  rewrite <- (firstn_skipn n s) at 2. rewrite digits_app. lia.
Qed.

Lemma digits_skipn n s : (digits I (skipn n s) <= digits I s)%nat.
Proof.
  rewrite <- (firstn_skipn n s) at 2. rewrite digits_app. lia.
Qed.

(** *** The pieces of a scan *)

Lemma scan_go_covered r skip prev s :
  covered (scan_go I r skip prev s) = skipn skip s.
Proof.
  revert skip prev; induction s as [| c s IH]; intros skip prev.
  - now destruct skip.
  - destruct skip as [| k]; cbn [scan_go skipn]; [| apply IH].
    destruct (matches I r prev (c :: s)) as [[| n] |];
      cbn [covered flat_map app]; fold covered; rewrite IH; try reflexivity.
    cbn [firstn app]. now rewrite firstn_skipn.
Qed.

Lemma scan_covered r s : covered (scan I r s) = s.
Proof. apply scan_go_covered. Qed.

(** Every hit of a scan is the text of a match. *)
Lemma scan_go_hits r m skip prev s :
  In (Hit m) (scan_go I r skip prev s) ->
  exists pv t n, matches I r pv t = Some (S n) /\ m = firstn (S n) t.
Proof.
  revert skip prev; induction s as [| c s IH]; intros skip prev; [intros [] |].
  destruct skip as [| k]; cbn [scan_go]; [| apply IH].
  destruct (matches I r prev (c :: s)) as [[| n] |] eqn:E; cbn [In].
  - intros [H | H]; [discriminate | eapply IH, H].
  - intros [[= <-] | H]; [eauto | eapply IH, H].
  - intros [H | H]; [discriminate | eapply IH, H].
Qed.

Lemma covered_hit m ps : covered (Hit m :: ps) = m ++ covered ps.
Proof. reflexivity. Qed.

Lemma covered_keep c ps : covered (Keep c :: ps) = c :: covered ps.
Proof. reflexivity. Qed.

(** A literal replacement with no more digits than any match does not
    add digits. *)
Lemma render_digits repl ps :
  (forall m, In (Hit m) ps -> (digits I repl <= digits I m)%nat) ->
  (digits I (render repl ps) <= digits I (covered ps))%nat.
Proof.
  induction ps as [| [c | m] ps IH]; intros H; [reflexivity | |].
  - rewrite render_keep_cons, covered_keep, !digits_cons.
    specialize (IH (fun m Hm => H m (or_intror Hm))). lia.
  - rewrite render_hit_cons, covered_hit, !digits_app.
    specialize (IH (fun m' Hm => H m' (or_intror Hm))).
    specialize (H m (or_introl eq_refl)). lia.
Qed.

(** A replacement function that accepts every match with at most [B]
    digits is never refused on a text with at most [B] digits. *)
Lemma subst_pieces_ok f ps B :
  (forall m, In (Hit m) ps -> (digits I m <= B)%nat -> exists out, f m = Ok out) ->
  (digits I (covered ps) <= B)%nat ->
  exists out, subst_pieces f ps = Ok out.
Proof.
  induction ps as [| [c | m] ps IH]; intros H HB; [now exists [] | |].
  - rewrite covered_keep, digits_cons in HB.
    destruct (IH (fun m Hm => H m (or_intror Hm)) ltac:(lia)) as [rest Hr].
    exists (c :: rest). cbn [subst_pieces]. now rewrite Hr.
  - rewrite covered_hit, digits_app in HB.
    destruct (IH (fun m' Hm => H m' (or_intror Hm)) ltac:(lia)) as [rest Hr].
    destruct (H m (or_introl eq_refl) ltac:(lia)) as [out Ho].
    exists (out ++ rest). cbn [subst_pieces]. now rewrite Ho, Hr.
Qed.

Lemma subst_pieces_digits f ps out k :
  (1 <= k)%nat ->
  (forall m o, In (Hit m) ps -> f m = Ok o -> (digits I o <= k * digits I m)%nat) ->
  subst_pieces f ps = Ok out ->
  (digits I out <= k * digits I (covered ps))%nat.
Proof.
  intros Hk. revert out; induction ps as [| [c | m] ps IH]; intros out H.
  - intros [= <-]. cbn. lia.
  - cbn [subst_pieces].
    destruct (subst_pieces f ps) as [rest |] eqn:Hr; [| discriminate].
    intros [= <-]. rewrite covered_keep, !digits_cons.
    specialize (IH rest (fun m o Hm => H m o (or_intror Hm)) eq_refl).
    destruct (is_digit I c); lia.
  - cbn [subst_pieces].
    destruct (f m) as [o |] eqn:Ho; [| discriminate].
    destruct (subst_pieces f ps) as [rest |] eqn:Hr; [| discriminate].
    intros [= <-]. rewrite covered_hit, !digits_app.
    specialize (IH rest (fun m o Hm => H m o (or_intror Hm)) eq_refl).
    specialize (H m o (or_introl eq_refl) Ho). lia.
Qed.

(** *** The abbreviations *)

Lemma abbreviations_digits :
  forallb (fun ae => (digits I (snd ae) <=? digits I (fst ae))%nat) abbreviations
  = true.
Proof. reflexivity. Qed.

Lemma abbrev_pass_digits a e s :
  (digits I e <= digits I a)%nat ->
  (digits I (re_sub I (abbrev_pattern a) e s) <= digits I s)%nat.
Proof.
  intros H. rewrite re_sub_render.
  rewrite <- (scan_covered (abbrev_pattern a) s) at 2.
  apply render_digits. intros m Hm.
  apply scan_go_hits in Hm as (pv & t & n & Hm & ->).
  apply abbrev_match in Hm as (_ & Hf & Hn & _).
  now rewrite Hn, Hf.
Qed.

Lemma expand_abbreviations_digits s :
  (digits I (expand_abbreviations I s) <= digits I s)%nat.
Proof.
  unfold expand_abbreviations.
  pose proof abbreviations_digits as H. rewrite forallb_forall in H.
  revert s H. generalize abbreviations as l.
  induction l as [| [a e] l IH]; intros s H; [reflexivity |].
  cbn [fold_left fst snd].
  etransitivity; [apply IH; intros x Hx; apply H; now right |].
  apply abbrev_pass_digits.
  specialize (H (a, e) (or_introl eq_refl)). now apply Nat.leb_le in H.
Qed.

(** *** The numbers *)

Local Open Scope Z_scope.

Lemma digits_value acc s :
  forallb (is_digit I) s = true -> exists n, int_digits I acc s = Some n.
Proof.
  revert acc; induction s as [| c s IH]; intros acc; [now exists acc |].
  cbn [forallb int_digits]. unfold is_digit.
  destruct (digit_value I c); [| discriminate]. intros H. now apply IH.
Qed.

Lemma ascii_digit_is_digit c : ascii_digit c = true -> is_digit I c = true.
Proof.
  unfold is_digit, digit_value. intros H.
  assert ((c <? 128)%N = true) as ->.
  { unfold ascii_digit, in_range in H.
    apply andb_true_iff in H as [_ H%N.leb_le]. apply N.ltb_lt. lia. }
  now rewrite H.
Qed.

Lemma py_str_is_digits n : forallb (is_digit I) (py_str n) = true.
Proof.
  pose proof (uint_text_digits (N.to_uint (Z.to_N n))) as H.
  unfold py_str. rewrite forallb_forall in *.
  intros c Hc. now apply ascii_digit_is_digit, H.
Qed.

Lemma py_str_digits n d :
  0 <= n < 10 ^ Z.of_nat d -> (1 <= d)%nat -> (digits I (py_str n) <= d)%nat.
Proof.
  intros Hn Hd. rewrite digits_all by apply py_str_is_digits.
  now apply (py_str_length I).
Qed.

(** One decimal of a quotient by a thousand or more has at most one
    digit more than the dividend. *)
Lemma one_decimal_digits n unit d :
  0 < n < 10 ^ Z.of_nat d -> (1 <= d <= 300)%nat -> 1000 <= unit ->
  (digits I (one_decimal n unit) <= d + 1)%nat.
Proof.
  intros Hn Hd Hu.
  assert (H300 : 10 ^ Z.of_nat d <= 10 ^ 300) by (apply Z.pow_le_mono_r; lia).
  destruct (true_div_small n unit) as [x Hx]; [lia | lia |].
  destruct (tenths_bound n unit x) as [Ht0 Ht]; [lia | lia | exact Hx |].
  unfold one_decimal. rewrite Hx, format_1f_tenths.
  set (t := tenths x) in *.
  rewrite digits_app, digits_cons, (dot_not_digit I).
  assert (H1 : (digits I (py_str (t mod 10)) <= 1)%nat).
  { apply py_str_digits; [| lia]. change (10 ^ Z.of_nat 1) with 10.
    apply Z.mod_pos_bound. lia. }
  assert (H2 : (digits I (py_str (t / 10)) <= d)%nat).
  { apply py_str_digits; [| lia]. split; [apply Z.div_pos; lia |].
    apply Z.div_lt_upper_bound; [lia |].
    set (D := 10 ^ Z.of_nat d) in *.
    destruct (Z.lt_ge_cases t (10 * D)) as [| Hge]; [assumption | exfalso].
    assert ((10 * D - 3) * 1000 <= (t - 3) * unit) by nia.
    nia. }
  lia.
Qed.

(** The number formatter on a token of up to three hundred digits. *)
Lemma format_number_short ds n :
  py_int I ds = Ok n -> (List.length ds <= 300)%nat ->
  format_number I ds = Ok (number_words n ds).
Proof.
  intros Hint Hlen.
  pose proof (short_below_pow I ds n Hint Hlen) as Hn.
  unfold number_words.
  destruct (Z.leb_spec 1000000000 n) as [H9 | H9].
  { rewrite (format_number_unfold I ds n Hint).
    assert ((1000000000 <=? n) = true) as -> by (apply Z.leb_le; lia).
    destruct (n mod 1000000000 =? 0); [reflexivity |].
    apply one_decimal_branch; lia. }
  destruct (Z.leb_spec 1000000 n) as [H6 | H6].
  { rewrite (format_number_unfold I ds n Hint).
    assert ((1000000000 <=? n) = false) as -> by (apply Z.leb_gt; lia).
    assert ((1000000 <=? n) = true) as -> by (apply Z.leb_le; lia).
    destruct (n mod 1000000 =? 0); [reflexivity |].
    apply one_decimal_branch; lia. }
  destruct (Z.leb_spec 100000 n) as [H5 | H5].
  { rewrite (format_number_six_digits I ds n Hint) by lia.
    assert ((n / 1000 <? 1000) = true) as ->.
    { apply Z.ltb_lt. apply Z.div_lt_upper_bound; lia. }
    destruct (Z.eqb_spec (n mod 1000) 0) as [Hm | Hm]; [reflexivity |].
    cbn [andb].
    assert ((n mod 100000 =? 0) = false) as ->.
    { apply Z.eqb_neq. intros H. now apply Hm, multiple_of_thousand. }
    apply one_decimal_branch; lia. }
  rewrite (format_number_unfold I ds n Hint).
  assert ((1000000000 <=? n) = false) as -> by (apply Z.leb_gt; lia).
  assert ((1000000 <=? n) = false) as -> by (apply Z.leb_gt; lia).
  assert ((100000 <=? n) = false) as -> by (apply Z.leb_gt; lia).
  destruct (Z.leb_spec 1000 n) as [H3 | H3]; [| reflexivity].
  destruct (n mod 1000 =? 0); [reflexivity |].
  apply one_decimal_branch; lia.
Qed.

Lemma quotient_digits n unit d :
  0 <= n < 10 ^ Z.of_nat d -> (1 <= d)%nat -> 0 < unit ->
  (digits I (py_str (n / unit)) <= d)%nat.
Proof.
  intros Hn Hd Hu. apply py_str_digits; [| exact Hd].
  split; [apply Z.div_pos; lia |].
  apply Z.div_lt_upper_bound; [lia |]. nia.
Qed.

(** The words for a number have at most one digit more than its token. *)
Lemma number_words_digits ds n :
  py_int I ds = Ok n -> (1 <= List.length ds <= 300)%nat ->
  forallb (is_digit I) ds = true ->
  (digits I (number_words n ds) <= List.length ds + 1)%nat.
Proof.
  intros Hint Hlen Hds.
  pose proof (py_int_bounds I ds n Hint) as Hn.
  pose proof (digits_all ds Hds) as Hd.
  assert (Hq : forall unit, 0 < unit ->
                 (digits I (py_str (n / unit)) <= List.length ds)%nat)
    by (intros unit Hu; apply quotient_digits; lia).
  assert (Ho : forall unit, 1000 <= unit -> 1000 <= n ->
                 (digits I (one_decimal n unit) <= List.length ds + 1)%nat)
    by (intros unit Hu H3; apply one_decimal_digits; lia).
  unfold number_words.
  repeat match goal with
         | |- context [if ?b then _ else _] =>
             match b with
             | ?k <=? n => destruct (Z.leb_spec k n)
             | _ => destruct b
             end
         end;
    rewrite ?digits_app;
    change (digits I (txt " billion")) with O;
    change (digits I (txt " million")) with O;
    change (digits I (txt " thousand")) with O;
    change (digits I (txt " hundred thousand")) with O;
    rewrite ?Nat.add_0_r;
    try (etransitivity; [apply Hq; lia | lia]);
    try (apply Ho; lia);
    lia.
Qed.

Lemma number_re_is_bounded_run : number_re I = bounded_run (is_digit I) 4.
Proof. reflexivity. Qed.

(** A match of the number pattern is a run of four or more digits. *)
Lemma number_match pv t n :
  matches I (number_re I) pv t = Some n ->
  forallb (is_digit I) (firstn n t) = true /\ (4 <= n <= List.length t)%nat.
Proof.
  rewrite number_re_is_bounded_run,
    bounded_run_matches by (try apply is_digit_word; lia).
  unfold bounded_hit.
  destruct (4 <=? run (is_digit I) t)%nat eqn:H4; [| discriminate].
  destruct (_ && _); [| discriminate].
  intros [= <-]. apply Nat.leb_le in H4.
  split; [apply run_firstn | split; [exact H4 | apply run_le]].
Qed.

Lemma hit_digits m ps :
  In (Hit m) ps -> (digits I m <= digits I (covered ps))%nat.
Proof.
  induction ps as [| [c | m'] ps IH]; [intros [] | |]; intros [H | H];
    try discriminate.
  - rewrite covered_keep, digits_cons. specialize (IH H). lia.
  - injection H as ->. rewrite covered_hit, digits_app. lia.
  - rewrite covered_hit, digits_app. specialize (IH H). lia.
Qed.

(** The number pass accepts a text with at most three hundred digits and
    at most doubles their number. *)
Lemma number_pass_ok s :
  (digits I s <= 300)%nat ->
  exists out,
    re_sub_fn I (number_re I) (format_number I) s = Ok out
    /\ (digits I out <= 2 * digits I s)%nat.
Proof.
  intros Hs. unfold re_sub_fn.
  pose proof (scan_covered (number_re I) s) as Hcov.
  assert (Hfmt : forall m,
             In (Hit m) (scan I (number_re I) s) ->
             exists n, format_number I m = Ok (number_words n m)
                       /\ (digits I (number_words n m) <= 2 * digits I m)%nat).
  { intros m Hm.
    pose proof (hit_digits m _ Hm) as Hle. rewrite Hcov in Hle.
    apply scan_go_hits in Hm as (pv & t & n & Hm & ->).
    apply number_match in Hm as (Hd & Hn).
    set (m := firstn (S n) t) in *.
    assert (Hl : List.length m = S n) by (apply firstn_length_le; lia).
    rewrite (digits_all m Hd) in *.
    destruct (digits_value 0 m Hd) as [v Hv].
    assert (Hint : py_int I m = Ok v).
    { apply py_int_ok; [intros E; rewrite E in Hl; discriminate | exact Hv |].
      apply short_not_too_many. lia. }
    exists v. split; [apply format_number_short; [exact Hint | lia] |].
    pose proof (number_words_digits m v Hint ltac:(lia) Hd). lia. }
  destruct (subst_pieces_ok (format_number I) (scan I (number_re I) s) 300)
    as [out Hout].
  - intros m Hm _. destruct (Hfmt m Hm) as (n & -> & _). eauto.
  - now rewrite Hcov.
  - exists out. split; [exact Hout |].
    rewrite <- Hcov at 1.
    apply (subst_pieces_digits (format_number I)); [lia | | exact Hout].
    intros m o Hm Ho.
    destruct (Hfmt m Hm) as (n & Hf & Hb). congruence.
Qed.

(** *** The decimals *)

(** A match of the decimal pattern is a token: digits, a dot, digits. *)
Lemma decimal_match pv t n :
  matches I (decimal_re I) pv t = Some n ->
  exists a b,
    firstn n t = a ++ dot :: b
    /\ forallb (is_digit I) a = true
    /\ forallb (is_digit I) b = true
    /\ (1 <= List.length b)%nat.
Proof.
  rewrite decimal_re_unfold. destruct (boundary I pv t); [| discriminate].
  intros (m1 & Hm1 & Ha & Hk)%rep_split.
  rewrite rep_chr in Hk.
  destruct (skipn m1 t) as [| c t'] eqn:Hsk; [discriminate |].
  destruct (N.eqb_spec dot c) as [<- | _]; [| discriminate].
  destruct (rep (is_digit I) 1 None (at_boundary I) (Some dot) t')
    as [j |] eqn:Hj; [| discriminate].
  cbn [option_map] in Hk. injection Hk as Hk.
  assert (Hjl : (j <= List.length t')%nat).
  { apply (rep_le (is_digit I) (at_boundary I)) in Hj; [exact Hj |].
    intros pv' s' n' H'. apply at_boundary_zero in H'. lia. }
  apply rep_split in Hj as (m2 & Hm2 & Hb & Hz).
  apply at_boundary_zero in Hz.
  exists (firstn m1 t), (firstn m2 t').
  assert (Hlen : List.length (firstn m1 t) = m1).
  { apply firstn_length_le.
    destruct (Nat.le_gt_cases m1 (List.length t)) as [| Hgt]; [assumption |].
    rewrite skipn_all2 in Hsk by lia. discriminate. }
  assert (Ht : t = firstn m1 t ++ dot :: t')
    by (now rewrite <- Hsk, firstn_skipn).
  split; [| split; [exact Ha | split; [exact Hb |]]].
  - replace n with (List.length (firstn m1 t) + S m2)%nat by lia.
    set (a := firstn m1 t) in *. clearbody a. rewrite Ht.
    now rewrite firstn_length_app.
  - rewrite firstn_length_le by lia. lia.
Qed.

Lemma decimal_pass_ok s :
  (digits I s <= 640)%nat ->
  exists out, re_sub_fn I (decimal_re I) (format_decimal I) s = Ok out.
Proof.
  intros Hs. unfold re_sub_fn.
  apply (subst_pieces_ok (format_decimal I) _ 640);
    [| now rewrite scan_covered].
  intros m Hm Hle.
  apply scan_go_hits in Hm as (pv & t & n & Hm & ->).
  apply decimal_match in Hm as (a & b & Hab & Ha & Hb & Hl).
  rewrite Hab in *.
  destruct (digits_value 0 a Ha) as [va Hva].
  destruct (digits_value 0 b Hb) as [vb Hvb].
  rewrite (format_decimal_token I a b va vb Hva Hvb Hl).
  rewrite short_not_too_many; [eauto |].
  rewrite digits_app, (digits_all a Ha) in Hle. lia.
Qed.

(** X1: a text with at most three hundred digits is never refused: the
    function returns.  (An exception needs a number that [int] or the
    division refuses, of more than three hundred digits.) *)
Theorem few_digits_never_raise s :
  (digits I s <= 300)%nat -> exists out, preprocess_abbreviations I s = Ok out.
Proof.
  intros Hs. unfold preprocess_abbreviations.
  pose proof (expand_abbreviations_digits s) as H0.
  destruct (number_pass_ok (expand_abbreviations I s)) as (s1 & -> & H1);
    [lia |].
  cbn [bind].
  destruct (decimal_pass_ok s1) as (s2 & ->); [lia |].
  cbn [bind]. eauto.
Qed.

End Safety.

(** ** A number on its own *)

Section NumberAlone.
Variable I : Interp.

Lemma forallb_firstn (p : char -> bool) n s :
  forallb p s = true -> forallb p (firstn n s) = true.
Proof.
  revert n; induction s as [| c s IH]; intros [| n]; try reflexivity.
  cbn [forallb firstn]. intros [-> H]%andb_true_iff. now apply IH.
Qed.

Lemma forallb_tail (p : char -> bool) c s :
  forallb p (c :: s) = true -> forallb p s = true.
Proof. cbn [forallb]. now intros [_ H]%andb_true_iff. Qed.

(** Every abbreviation has a character that is no digit. *)
Lemma abbreviations_not_numbers :
  forallb (fun ae => negb (forallb (is_digit I) (fst ae))) abbreviations = true.
Proof. reflexivity. Qed.

Lemma abbrev_unmatched_in_digits a prev ds :
  forallb (is_digit I) a = false ->
  forallb (is_digit I) ds = true ->
  unmatched I (abbrev_pattern a) prev ds = true.
Proof.
  intros Ha. revert prev; induction ds as [| c ds IH]; intros prev Hds;
    [reflexivity |].
  cbn [unmatched].
  destruct (matches I (abbrev_pattern a) prev (c :: ds)) as [[| n] |] eqn:E;
    try (apply IH; eapply forallb_tail, Hds).
  apply abbrev_match in E as (_ & Hf & _).
  rewrite <- Hf, forallb_firstn in Ha by exact Hds. discriminate.
Qed.

Lemma expand_abbreviations_digits_only ds :
  forallb (is_digit I) ds = true -> expand_abbreviations I ds = ds.
Proof.
  intros Hds. unfold expand_abbreviations.
  pose proof abbreviations_not_numbers as H. rewrite forallb_forall in H.
  revert H. generalize abbreviations as l.
  induction l as [| [a e] l IH]; intros H; [reflexivity |].
  cbn [fold_left fst snd]. rewrite re_sub_unmatched; [apply IH |].
  - intros x Hx. apply H. now right.
  - apply abbrev_unmatched_in_digits; [| exact Hds].
    specialize (H (a, e) (or_introl eq_refl)). now apply negb_true_iff in H.
Qed.

Lemma run_all p s : forallb p s = true -> run p s = List.length s.
Proof.
  induction s as [| c s IH]; [reflexivity |].
  cbn [forallb run]. intros [-> H]%andb_true_iff. now rewrite IH.
Qed.

(** The number pass hands a text of four or more digits to the
    formatter as one token. *)
Lemma number_pass_digits_only ds :
  forallb (is_digit I) ds = true -> (4 <= List.length ds)%nat ->
  re_sub_fn I (number_re I) (format_number I) ds
  = (out <- format_number I ds ;; Ok out).
Proof.
  intros Hds Hlen. unfold re_sub_fn, scan.
  assert (Hm : matches I (number_re I) None ds = Some (List.length ds)).
  { rewrite number_re_is_bounded_run,
      bounded_run_matches by (try apply is_digit_word; lia).
    unfold bounded_hit. rewrite (run_all _ _ Hds), skipn_all.
    apply Nat.leb_le in Hlen. now rewrite Hlen. }
  destruct ds as [| c ds]; [simpl in Hlen; lia |].
  cbn [List.length] in Hm. rewrite (scan_hit I _ _ _ _ Hm).
  change (S (List.length ds)) with (List.length (c :: ds)).
  rewrite firstn_all, skipn_all. cbn [scan_go subst_pieces].
  destruct (format_number I (c :: ds)) as [out |]; cbn [bind];
    [now rewrite List.app_nil_r | reflexivity].
Qed.

Local Open Scope Z_scope.

(** X2: a text that is one number of four or more digits: the function
    raises [ValueError] when [int] refuses its length, and
    [OverflowError] when its value is [2^1024] billions or more and no
    multiple of a billion. *)
Theorem long_numbers_raise ds :
  forallb (is_digit I) ds = true -> (4 <= List.length ds)%nat ->
  (too_many_digits I ds = true ->
   preprocess_abbreviations I ds = Raise ValueError)
  /\ (forall n,
         py_int I ds = Ok n ->
         2 ^ 1024 * 1000000000 <= n -> n mod 1000000000 <> 0 ->
         preprocess_abbreviations I ds = Raise OverflowError).
Proof.
  intros Hds Hlen. unfold preprocess_abbreviations.
  rewrite (expand_abbreviations_digits_only ds Hds),
    (number_pass_digits_only ds Hds Hlen).
  split.
  - intros H. unfold format_number. now rewrite (py_int_too_many I _ H).
  - intros n Hint Hn Hm. rewrite (format_number_unfold I ds n Hint).
    assert (0 < 2 ^ 1024) by (apply Z.pow_pos_nonneg; lia).
    assert ((1000000000 <=? n) = true) as -> by (apply Z.leb_le; nia).
    assert ((n mod 1000000000 =? 0) = false) as -> by (now apply Z.eqb_neq).
    now rewrite (true_div_overflow n 1000000000) by lia.
Qed.

End NumberAlone.

(** ** Degrees Celsius *)

Section Celsius.
Variable I : Interp.

Lemma absent_unmatched w prev s :
  absent w s = true -> unmatched I (lit w) prev s = true.
Proof.
  revert prev; induction s as [| c s IH]; intros prev; [reflexivity |].
  cbn [absent unmatched].
  intros [Hw%negb_true_iff Hs]%andb_true_iff.
  assert (matches I (lit w) prev (c :: s) = None) as ->.
  { rewrite <- (List.app_nil_r (lit w)), lit_chrs, matches_chrs.
    now rewrite chars_match_starts, Hw. }
  now apply IH.
Qed.

Lemma absent_celsius_cons c s :
  absent degree_celsius (c :: s)
  = negb ((c =? 176) && match s with d :: _ => d =? 67 | [] => false end)
    && absent degree_celsius s.
Proof.
  cbn [absent]. f_equal. f_equal. unfold degree_celsius.
  cbn [starts_with]. rewrite (N.eqb_sym 176 c).
  destruct s as [| d s]; [reflexivity |].
  change (ch "C") with 67. now rewrite andb_true_r, (N.eqb_sym 67 d).
Qed.

(** The replacement of the sign does not push a [C] to the front. *)
Lemma replace_celsius_head s :
  match replace_go degree_celsius (txt " Celsius ") O s with
  | d :: _ => (d =? 67) = true ->
              match s with d' :: _ => (d' =? 67) = true | [] => False end
  | [] => True
  end.
Proof.
  destruct s as [| c s]; [exact Logic.I |].
  cbn [replace_go]. destruct (starts_with degree_celsius (c :: s)).
  - cbn. discriminate.
  - trivial.
Qed.

Lemma replace_celsius_absent n :
  forall s,
    (List.length s <= n)%nat ->
    absent degree_celsius (replace_go degree_celsius (txt " Celsius ") O s)
    = true.
Proof.
  induction n as [| n IH]; intros s Hn.
  - destruct s; [reflexivity | simpl in Hn; lia].
  - destruct s as [| c s]; [reflexivity |].
    cbn [replace_go].
    destruct (starts_with degree_celsius (c :: s)) eqn:Hs.
    + destruct s as [| d s]; [cbn in Hs; now rewrite andb_false_r in Hs |].
      cbn [List.length pred replace_go].
      change (txt " Celsius ") with [32; 67; 101; 108; 115; 105; 117; 115; 32].
      cbn [app]. rewrite !absent_celsius_cons. cbn [N.eqb Pos.eqb andb negb].
      apply IH. simpl in Hn. lia.
    + rewrite absent_celsius_cons, IH by (simpl in Hn; lia).
      rewrite andb_true_r. apply negb_true_iff.
      destruct (N.eqb_spec c 176) as [-> | _]; [| reflexivity].
      cbn [andb].
      pose proof (replace_celsius_head s) as Hh.
      destruct (replace_go degree_celsius (txt " Celsius ") O s) as [| d out];
        [reflexivity |].
      destruct (d =? 67) eqn:Hd; [| reflexivity].
      specialize (Hh eq_refl). destruct s as [| d' s]; [contradiction |].
      unfold degree_celsius in Hs. cbn [starts_with] in Hs.
      rewrite N.eqb_refl, andb_true_r in Hs. change (ch "C") with 67 in Hs.
      rewrite N.eqb_sym, Hh in Hs. discriminate.
Qed.

(** The replacement of one character by another, character by
    character. *)
Lemma replace_char a b s :
  str_replace [a] [b] s = map (fun c => if a =? c then b else c) s.
Proof.
  unfold str_replace. induction s as [| c s IH]; [reflexivity |].
  cbn [replace_go starts_with List.length pred map].
  rewrite andb_true_r, IH. now destruct (a =? c).
Qed.

Lemma absent_celsius_map f s :
  (forall c, f c = 176 -> c = 176) -> (forall c, f c = 67 -> c = 67) ->
  absent degree_celsius s = true -> absent degree_celsius (map f s) = true.
Proof.
  intros H176 H67. induction s as [| c s IH]; [reflexivity |].
  cbn [map]. rewrite !absent_celsius_cons.
  intros [Hc%negb_true_iff Hs]%andb_true_iff. rewrite (IH Hs), andb_true_r.
  apply negb_true_iff.
  destruct (N.eqb_spec (f c) 176) as [E | _]; [| reflexivity].
  apply H176 in E. subst c. cbn [andb] in *. rewrite N.eqb_refl in Hc.
  destruct s as [| d s]; [reflexivity |]. cbn [map andb] in *.
  destruct (N.eqb_spec (f d) 67) as [E | _]; [| reflexivity].
  apply H67 in E. subst d. discriminate.
Qed.

Lemma absent_celsius_spaced a s :
  a <> 176 -> a <> 67 ->
  absent degree_celsius s = true ->
  absent degree_celsius (str_replace [a] [32] s) = true.
Proof.
  intros H1 H2 Hs. rewrite replace_char.
  apply absent_celsius_map; [| | exact Hs]; intros c;
    destruct (N.eqb_spec a c); try discriminate; congruence.
Qed.

Lemma cleanup_no_celsius s : absent degree_celsius (cleanup I s) = true.
Proof.
  rewrite cleanup_unfold.
  do 3 (apply absent_celsius_spaced; [discriminate | discriminate |]).
  unfold str_replace. change [176; 67] with degree_celsius.
  eapply replace_celsius_absent. reflexivity.
Qed.

(** X11: whatever the input, the text the function returns has no
    degree sign followed by [C]: the closing stage has replaced each by
    [Celsius], and what it writes makes no new one. *)
Theorem celsius_sign_never_survives (s out : text) :
  preprocess_abbreviations I s = Ok out ->
  occurs I (lit degree_celsius) out = false.
Proof.
  intros [t ->]%preprocess_ok_inv. unfold occurs. apply negb_false_iff.
  apply absent_unmatched, cleanup_no_celsius.
Qed.

End Celsius.

(** ** [speak_text] *)

Section SpeechTheorems.

Variable I : Interp.
Variable W : Services.

Lemma init_mixer_spoken configs a :
  In a (fst (init_mixer W configs)) -> spoken a = None.
Proof.
  induction configs as [| c configs IH]; [intros [] |].
  cbn [init_mixer]. destruct (mixer_init W c).
  - intros [<- | []]. reflexivity.
  - destruct (init_mixer W configs) as [acts ok]. cbn [fst] in *.
    intros [<- | H]; [reflexivity | now apply IH].
  - intros [<- | []]. reflexivity.
Qed.

Lemma init_mixer_commands configs :
  commands_run (fst (init_mixer W configs)) = [].
Proof.
  induction configs as [| c configs IH]; [reflexivity |].
  cbn [init_mixer]. destruct (mixer_init W c); try reflexivity.
  destruct (init_mixer W configs) as [acts ok]. exact IH.
Qed.

Lemma commands_run_app a b :
  commands_run (a ++ b) = commands_run a ++ commands_run b.
Proof.
  induction a as [| [] a IH]; cbn [app commands_run]; try assumption;
    [reflexivity | now rewrite IH].
Qed.

Lemma gtts_pygame_spoken t a u :
  In a (fst (gtts_pygame W t)) -> spoken a = Some u -> u = t.
Proof.
  unfold gtts_pygame. destruct (synthesize W t).
  - pose proof (init_mixer_spoken audio_drivers) as Hm.
    destruct (init_mixer W audio_drivers) as [acts ok]. cbn [fst] in Hm.
    destruct ok; cbn [fst In].
    + intros [<- | H]; [now intros [= <-] |].
      apply in_app_or in H as [H | [<- | []]]; [| discriminate].
      rewrite (Hm a H). discriminate.
    + intros [<- | H]; [now intros [= <-] |].
      rewrite (Hm a H). discriminate.
  - intros [<- | []]. now intros [= <-].
Qed.

Lemma gtts_pygame_commands t : commands_run (fst (gtts_pygame W t)) = [].
Proof.
  unfold gtts_pygame. destruct (synthesize W t); [| reflexivity].
  pose proof (init_mixer_commands audio_drivers) as Hm.
  destruct (init_mixer W audio_drivers) as [acts ok]. cbn [fst] in Hm.
  destruct ok; cbn [fst commands_run]; [| exact Hm].
  now rewrite commands_run_app, Hm.
Qed.

Lemma system_tts_spoken cmds t a u :
  In a (fst (system_tts W cmds t)) -> spoken a = Some u -> u = t.
Proof.
  induction cmds as [| c cmds IH]; cbn [system_tts].
  - intros [<- | []]. discriminate.
  - destruct (subprocess_run W c t);
      try (intros [<- | []]; now intros [= <-]);
      destruct (system_tts W cmds t) as [acts r]; cbn [fst] in *;
      (intros [<- | H]; [now intros [= <-] | now apply IH]).
Qed.

Lemma caught_cons t c cmds :
  forallb (fun c => caught W c t) (c :: cmds)
  = caught W c t && forallb (fun c => caught W c t) cmds.
Proof. reflexivity. Qed.

Lemma firstn_pred_cons k (c : command) cmds :
  firstn (pred (S k)) (c :: cmds)
  = match k with O => [] | S _ => c :: firstn (pred k) cmds end.
Proof. now destruct k. Qed.

(** The commands that the fallback runs are an initial part of the
    list; all but the last failed with a caught exception; and when the
    last did too, it is the last of the list. *)
Lemma system_tts_order cmds t :
  exists k,
    commands_run (fst (system_tts W cmds t)) = firstn k cmds
    /\ forallb (fun c => caught W c t) (firstn (pred k) cmds) = true
    /\ (forallb (fun c => caught W c t) (firstn k cmds) = true ->
        k = List.length cmds).
Proof.
  induction cmds as [| c cmds IH]; [exists O; now repeat split |].
  cbn [system_tts].
  assert (Hstop : caught W c t = false ->
            exists k,
              commands_run [Subprocess c t] = firstn k (c :: cmds)
              /\ forallb (fun c => caught W c t) (firstn (pred k) (c :: cmds))
                 = true
              /\ (forallb (fun c => caught W c t) (firstn k (c :: cmds)) = true
                  -> k = List.length (c :: cmds))).
  { intros Hc. exists 1%nat. split; [reflexivity | split; [reflexivity |]].
    cbn [firstn]. rewrite caught_cons, Hc. discriminate. }
  assert (Hnext : caught W c t = true ->
            exists k,
              commands_run (Subprocess c t :: fst (system_tts W cmds t))
              = firstn k (c :: cmds)
              /\ forallb (fun c => caught W c t) (firstn (pred k) (c :: cmds))
                 = true
              /\ (forallb (fun c => caught W c t) (firstn k (c :: cmds)) = true
                  -> k = List.length (c :: cmds))).
  { intros Hc. destruct IH as (k & H1 & H2 & H3). exists (S k).
    cbn [commands_run]. rewrite H1, firstn_pred_cons.
    split; [reflexivity |]. split.
    - destruct k; [reflexivity |]. now rewrite caught_cons, Hc.
    - cbn [firstn]. rewrite caught_cons, Hc. cbn [andb List.length].
      intros H. now rewrite (H3 H). }
  unfold caught in Hstop, Hnext.
  destruct (subprocess_run W c t);
    try (apply Hstop; reflexivity);
    destruct (system_tts W cmds t) as [acts r]; apply Hnext; reflexivity.
Qed.


(** X7: every text that [speak_text] hands to a speech service, gTTS or a
    command, is the text the normalizer returned, and has no asterisk,
    backtick, slash or underscore. *)
Theorem services_get_clean_text s a u :
  In a (fst (speak_text I W s)) -> spoken a = Some u ->
  preprocess_abbreviations I s = Ok u
  /\ forallb (fun c => negb (markup c)) u = true.
Proof.
  unfold speak_text.
  destruct (preprocess_abbreviations I s) as [t | e] eqn:E; [| intros []].
  intros Ha Hu.
  assert (u = t) as ->.
  { pose proof (gtts_pygame_spoken t a u) as H1.
    pose proof (system_tts_spoken system_commands t a u) as H2.
    destruct (gtts_pygame W t) as [acts ok].
    destruct ok; [now apply H1 |].
    destruct (system_tts W system_commands t) as [acts' r].
    cbn [fst] in *.
    apply in_app_or in Ha as [Ha | [<- | Ha]];
      [now apply H1 | discriminate | now apply H2]. }
  split; [reflexivity |].
  apply preprocess_ok_inv in E as [t' ->]. apply cleanup_no_markup.
Qed.

(** X8: the fallback of [speak_text]: no command is run when gTTS and
    pygame played the text; otherwise the commands run are an initial
    part of [espeak], [say], [spd-say], each but the last one run has
    failed with a caught exception, and when the last one run has too,
    all three were run. *)
Theorem fallback_in_order s t :
  preprocess_abbreviations I s = Ok t ->
  exists k,
    commands_run (fst (speak_text I W s)) = firstn k system_commands
    /\ forallb (fun c => caught W c t) (firstn (pred k) system_commands) = true
    /\ (if snd (gtts_pygame W t) then k = O
        else forallb (fun c => caught W c t) (firstn k system_commands) = true
             -> k = 3%nat).
Proof.
  intros E. unfold speak_text. rewrite E.
  pose proof (gtts_pygame_commands t) as Hp.
  destruct (gtts_pygame W t) as [acts ok]. cbn [fst snd] in *.
  destruct ok.
  - exists O. cbn [fst]. rewrite Hp. now repeat split.
  - destruct (system_tts_order system_commands t) as (k & H1 & H2 & H3).
    destruct (system_tts W system_commands t) as [acts' r]. cbn [fst] in *.
    exists k. rewrite commands_run_app, Hp. cbn [app commands_run].
    now repeat split.
Qed.


End SpeechTheorems.

(** ** Instances *)

(** [CPU: 3.2 GHz] has two digits. *)
Lemma few_digits_never_raise_witness :
  (digits ascii_interp (txt "CPU: 3.2 GHz") <= 300)%nat
  /\ exists out,
       preprocess_abbreviations ascii_interp (txt "CPU: 3.2 GHz") = Ok out.
Proof.
  split; [vm_compute; lia |].
  apply (few_digits_never_raise ascii_interp). vm_compute. lia.
Defined.

(** Four hundred sevens. *)
Lemma long_numbers_raise_witness :
  preprocess_abbreviations ascii_interp (repeat (ch "7") 400)
  = Raise OverflowError.
Proof.
  apply (proj2 (long_numbers_raise ascii_interp (repeat (ch "7") 400)
                  ltac:(vm_compute; reflexivity) ltac:(vm_compute; lia))
           ((10 ^ 400 - 1) / 9 * 7)%Z).
  - vm_compute. reflexivity.
  - vm_compute. discriminate.
  - vm_compute. discriminate.
Defined.

(** The formatter on three hundred and thirty nines. *)
Lemma format_number_errors_witness :
  format_number ascii_interp (repeat (ch "9") 330) = Raise OverflowError.
Proof.
  apply (proj1 (format_number_errors ascii_interp (repeat (ch "9") 330))
           (10 ^ 330 - 1)%Z).
  - vm_compute. reflexivity.
  - vm_compute. discriminate.
  - vm_compute. discriminate.
Defined.

(** The formatter on [3.14]. *)
Lemma format_decimal_errors_witness :
  exists out,
    format_decimal ascii_interp (txt "3.14") = Ok out
    /\ without dot out = true.
Proof.
  exact (proj2 (format_decimal_errors ascii_interp (txt "3") (txt "14")
                  3%Z 14%Z eq_refl eq_refl ltac:(vm_compute; lia))
           eq_refl).
Defined.

(** What [say] is given for [Path: /usr/bin]. *)
Lemma services_get_clean_text_witness :
  preprocess_abbreviations ascii_interp (txt "Path: /usr/bin")
  = Ok (txt "Path:  usr bin")
  /\ forallb (fun c => negb (markup c)) (txt "Path:  usr bin") = true.
Proof.
  apply (services_get_clean_text ascii_interp say_only (txt "Path: /usr/bin")
           (Subprocess say (txt "Path:  usr bin"))).
  - vm_compute. do 3 right. left. reflexivity.
  - reflexivity.
Defined.

(** With [say] alone installed, [espeak] is tried and then [say]. *)
Lemma fallback_in_order_witness :
  exists k,
    commands_run (fst (speak_text ascii_interp say_only (txt "Load: 2 kW")))
    = firstn k system_commands
    /\ forallb (fun c => caught say_only c (txt "Load: 2 kilowatts"))
         (firstn (pred k) system_commands) = true
    /\ (if snd (gtts_pygame say_only (txt "Load: 2 kilowatts")) then k = O
        else forallb (fun c => caught say_only c (txt "Load: 2 kilowatts"))
               (firstn k system_commands) = true
             -> k = 3%nat).
Proof.
  apply (fallback_in_order ascii_interp say_only (txt "Load: 2 kW")).
  vm_compute. reflexivity.
Defined.


(** Thirty degrees. *)
Lemma celsius_sign_never_survives_witness :
  occurs ascii_interp (lit degree_celsius)
    (txt "Temperature: 30 Celsius ") = false.
Proof.
  apply (celsius_sign_never_survives ascii_interp
           (txt "Temperature: 30" ++ degree_celsius)).
  vm_compute. reflexivity.
Defined.
